(** * Kibana excerpts: Top-N functions aggregator, watcher field route,
    workpad route table

    A shallow embedding of three fragments of the repository:

    - [createTopNFunctions] (profiling, "Top N functions" report),
    - the handler registered by [registerListFieldsRoute]
    ([POST /api/watcher/fields]),
    - the [loadWorkpad] route action of the workpad application.

    Conventions of the embedding.

    - A JavaScript [number] that carries a sample count, a sampling rate or a
    duration is an exact rational ([Q]); the rounding, the infinities and
    the NaN of binary64 are outside the model, so are divisions by zero
    (the code divides by [samplingRate] and by [totalCount]).  Equalities
    between computed counts are stated with [==] ([Qeq]).  Where the
    rounding itself is the matter, the scaling of the counts by
    [1 / samplingRate], the two loops are read a second time with the
    binary64 operations of the program (module [Binary64], primitive
    floats).
    - A [number] used as an index, a rank, a page or an HTTP status is an
    integer ([Z]).
    - A JavaScript [Map] that is only read with [get] is a [gmap]; the
    accumulator [Map] whose [values()] are enumerated in insertion order is
    an association list with the insertion discipline of [Map.set].
    - Reading an array out of range yields [undefined]; it is [None] here. *)

From Stdlib Require Import ZArith QArith Ascii PrimFloat.
From stdpp Require Import base option list gmap strings sorting.

Local Open Scope Z_scope.

(** ** Identifiers: all of them are strings in the source *)

Abbreviation StackTraceID := string (only parsing).
Abbreviation StackFrameID := string (only parsing).
Abbreviation FileID := string (only parsing).
Abbreviation FrameGroupID := string (only parsing).

(** ** Records of [./profiling], as far as [createTopNFunctions] reads them *)

Module StackTrace.
Record t := mk {
  FrameIDs : list StackFrameID;
  FileIDs : list FileID;
  AddressOrLines : list Z;
  Types : list Z;
}.
End StackTrace.

Module StackFrame.
Record t := mk {
  FileName : string;
  FunctionName : string;
  FunctionOffset : Z;
  LineNumber : Z;
  Inline : bool;
}.
End StackFrame.

Module Executable.
Record t := mk {
  FileName : string;
}.
End Executable.

(** The object literal handed to [createStackFrameMetadata].  The four
    fields read from the arrays of the stack trace at position [i] are
    [None] when that array is shorter than [FrameIDs]. *)
Module StackFrameMetadataOptions.
Record t := mk {
  FrameID : option StackFrameID;
  FileID : option FileID;
  AddressOrLine : option Z;
  FrameType : option Z;
  Inline : bool;
  FunctionName : string;
  FunctionOffset : Z;
  SourceLine : Z;
  SourceFilename : string;
  ExeFileName : string;
}.
End StackFrameMetadataOptions.

(** ** What [createTopNFunctions] imports

    [./frame_group], [./calculate_impact_estimates] and the helpers of
    [./profiling] are not part of the excerpt: they are taken as parameters,
    bundled in one interface. *)
Class ProfilingImports := {
  StackFrameMetadata : Type;
  ImpactEstimates : Type;
  createFrameGroupID :
    option FileID → option Z → string → string → string → FrameGroupID;
  createStackFrameMetadata : StackFrameMetadataOptions.t → StackFrameMetadata;
  (* arguments: countExclusive, countInclusive, totalSamples, totalSeconds *)
  calculateImpactEstimates : Q → Q → Q → Q → ImpactEstimates;
  emptyStackTrace : StackTrace.t;
  emptyStackFrame : StackFrame.t;
  emptyExecutable : Executable.t;
}.

Module TopNFunctionAndFrameGroup.
Record t `{ProfilingImports} := mk {
  Frame : StackFrameMetadata;
  FrameGroupID : FrameGroupID;
  CountExclusive : Q;
  CountInclusive : Q;
}.
End TopNFunctionAndFrameGroup.

Module TopNFunction.
Record t `{ProfilingImports} := mk {
  Rank : Z;
  Frame : StackFrameMetadata;
  CountExclusive : Q;
  selfCPUPerc : Q;
  CountInclusive : Q;
  totalCPUPerc : Q;
  Id : string;
  impactEstimates : option ImpactEstimates;
}.
End TopNFunction.

Module TopNFunctions.
Record t `{ProfilingImports} := mk {
  TotalCount : Q;
  TopN : list TopNFunction.t;
  SamplingRate : Q;
  impactEstimates : option ImpactEstimates;
  selfCPUPerc : Q;
  totalCPUPerc : Q;
}.
End TopNFunctions.

(** ** JavaScript built-ins used by the code *)

(** [a > b] and [a < b] on numbers. *)
Definition Qgtb (a b : Q) : bool :=
  match (a ?= b)%Q with Gt => true | _ => false end.
Definition Qltb (a b : Q) : bool :=
  match (a ?= b)%Q with Lt => true | _ => false end.

(** Modelled from the spec: [String.prototype.localeCompare], a built-in
    whose collation is the host's, is the lexicographic comparison of the two
    strings.  Negative, zero or positive as the receiver sorts before, with
    or after the argument. *)
Definition localeCompare (a b : string) : Z :=
  match String.compare a b with
  | Lt => -1
  | Eq => 0
  | Gt => 1
  end.

(** [Array.prototype.sort(cmp)]: a stable sort; [cmp a b > 0] puts [a] after
    [b].  Stable insertion sort computes the array every conforming engine
    computes when the comparator is consistent. *)
Section Sort.
Context {A : Type} (cmp : A → A → Z).

Fixpoint sort_insert (x : A) (l : list A) : list A :=
  match l with
  | [] => [x]
  | y :: l' => if 0 <? cmp x y then y :: sort_insert x l' else x :: y :: l'
  end.

Definition js_sort (l : list A) : list A := foldr sort_insert [] l.
End Sort.

(** [Array.prototype.slice(start, end)] on integer arguments: a negative
    index counts from the end, both are brought into [0, length]. *)
Definition slice_index (len k : Z) : Z :=
  if k <? 0 then Z.max (len + k) 0 else Z.min k len.

Definition js_slice {A} (l : list A) (start end_ : Z) : list A :=
  let len := Z.of_nat (length l) in
  let k := slice_index len start in
  let final := slice_index len end_ in
  take (Z.to_nat (Z.max (final - k) 0)) (drop (Z.to_nat k) l).

(** lodash [sumBy]: [0] on the empty array, else the elements added from
    left to right starting from the first. *)
Definition sumBy {A} (l : list A) (f : A → Q) : Q :=
  match l with
  | [] => 0%Q
  | x :: l' => fold_left (λ acc y, (acc + f y)%Q) l' (f x)
  end.

(** ** The accumulator: [Map<FrameGroupID, TopNFunctionAndFrameGroup>]

    Keys in insertion order; [set] on a present key replaces the value in
    place, on an absent key it appends. *)
Section JsMap.
Context {V : Type}.

Fixpoint map_get (k : string) (m : list (string * V)) : option V :=
  match m with
  | [] => None
  | (k', v) :: m' => if decide (k = k') then Some v else map_get k m'
  end.

Fixpoint map_set (k : string) (v : V) (m : list (string * V))
  : list (string * V) :=
  match m with
  | [] => [(k, v)]
  | (k', v') :: m' =>
      if decide (k = k') then (k, v) :: m' else (k', v') :: map_set k v m'
  end.

Definition map_values (m : list (string * V)) : list V := m.*2.
End JsMap.

(** ** [createTopNFunctions] *)

Abbreviation Accumulator :=
  (list (FrameGroupID * TopNFunctionAndFrameGroup.t)).

Section TopN.
Context `{ProfilingImports}.

(** The three lookup tables are only read. *)
Variable executables : gmap FileID Executable.t.
Variable stackFrames : gmap StackFrameID StackFrame.t.
Variable stackTraces : gmap StackTraceID StackTrace.t.

(** [stackFrames.get(frameID) ?? emptyStackFrame] at position [i]. *)
Definition frameAt (stackTrace : StackTrace.t) (i : nat) : StackFrame.t :=
  default emptyStackFrame
    (StackTrace.FrameIDs stackTrace !! i ≫= λ frameID, stackFrames !! frameID).

(** [executables.get(fileID) ?? emptyExecutable] at position [i]. *)
Definition executableAt (stackTrace : StackTrace.t) (i : nat) : Executable.t :=
  default emptyExecutable
    (StackTrace.FileIDs stackTrace !! i ≫= λ fileID, executables !! fileID).

Definition frameGroupIDAt (stackTrace : StackTrace.t) (i : nat) : FrameGroupID :=
  createFrameGroupID
    (StackTrace.FileIDs stackTrace !! i)
    (StackTrace.AddressOrLines stackTrace !! i)
    (Executable.FileName (executableAt stackTrace i))
    (StackFrame.FileName (frameAt stackTrace i))
    (StackFrame.FunctionName (frameAt stackTrace i)).

(** The entry created the first time a frame group is met. *)
Definition newTopNFunction (stackTrace : StackTrace.t) (i : nat)
  : TopNFunctionAndFrameGroup.t :=
  let frame := frameAt stackTrace i in
  let executable := executableAt stackTrace i in
  {| TopNFunctionAndFrameGroup.Frame :=
       createStackFrameMetadata
         {| StackFrameMetadataOptions.FrameID := StackTrace.FrameIDs stackTrace !! i;
            StackFrameMetadataOptions.FileID := StackTrace.FileIDs stackTrace !! i;
            StackFrameMetadataOptions.AddressOrLine :=
              StackTrace.AddressOrLines stackTrace !! i;
            StackFrameMetadataOptions.FrameType := StackTrace.Types stackTrace !! i;
            StackFrameMetadataOptions.Inline := StackFrame.Inline frame;
            StackFrameMetadataOptions.FunctionName := StackFrame.FunctionName frame;
            StackFrameMetadataOptions.FunctionOffset := StackFrame.FunctionOffset frame;
            StackFrameMetadataOptions.SourceLine := StackFrame.LineNumber frame;
            StackFrameMetadataOptions.SourceFilename := StackFrame.FileName frame;
            StackFrameMetadataOptions.ExeFileName := Executable.FileName executable |};
     TopNFunctionAndFrameGroup.FrameGroupID := frameGroupIDAt stackTrace i;
     TopNFunctionAndFrameGroup.CountExclusive := 0;
     TopNFunctionAndFrameGroup.CountInclusive := 0 |}.

(** [topNFunction.CountInclusive += scaledCount] *)
Definition addInclusive (scaledCount : Q) (e : TopNFunctionAndFrameGroup.t)
  : TopNFunctionAndFrameGroup.t :=
  {| TopNFunctionAndFrameGroup.Frame := TopNFunctionAndFrameGroup.Frame e;
     TopNFunctionAndFrameGroup.FrameGroupID := TopNFunctionAndFrameGroup.FrameGroupID e;
     TopNFunctionAndFrameGroup.CountExclusive := TopNFunctionAndFrameGroup.CountExclusive e;
     TopNFunctionAndFrameGroup.CountInclusive :=
       (TopNFunctionAndFrameGroup.CountInclusive e + scaledCount)%Q |}.

(** [topNFunction.CountExclusive += scaledCount] *)
Definition addExclusive (scaledCount : Q) (e : TopNFunctionAndFrameGroup.t)
  : TopNFunctionAndFrameGroup.t :=
  {| TopNFunctionAndFrameGroup.Frame := TopNFunctionAndFrameGroup.Frame e;
     TopNFunctionAndFrameGroup.FrameGroupID := TopNFunctionAndFrameGroup.FrameGroupID e;
     TopNFunctionAndFrameGroup.CountExclusive :=
       (TopNFunctionAndFrameGroup.CountExclusive e + scaledCount)%Q;
     TopNFunctionAndFrameGroup.CountInclusive := TopNFunctionAndFrameGroup.CountInclusive e |}.

(** The body of the inner loop at position [i].  The state is the
    accumulator and [uniqueFrameGroupsPerEvent].  [topNFunction] is the
    object stored in the accumulator under [frameGroupID]: the two [+=] act
    on that object, so the updated entry is what the accumulator holds at
    that key when the iteration ends. *)
Definition frameStep (stackTrace : StackTrace.t) (scaledCount : Q)
    (st : Accumulator * gset FrameGroupID) (i : nat)
  : Accumulator * gset FrameGroupID :=
  let '(topNFunctions, uniqueFrameGroupsPerEvent) := st in
  let lenStackTrace := length (StackTrace.FrameIDs stackTrace) in
  let frameGroupID := frameGroupIDAt stackTrace i in
  let '(topNFunction, topNFunctions) :=
    match map_get frameGroupID topNFunctions with
    | Some e => (e, topNFunctions)
    | None =>
        let e := newTopNFunction stackTrace i in
        (e, map_set frameGroupID e topNFunctions)
    end in
  let '(topNFunction, uniqueFrameGroupsPerEvent) :=
    if decide (frameGroupID ∈ uniqueFrameGroupsPerEvent)
    then (topNFunction, uniqueFrameGroupsPerEvent)
    else (addInclusive scaledCount topNFunction,
          {[frameGroupID]} ∪ uniqueFrameGroupsPerEvent) in
  let topNFunction :=
    if Z.of_nat i =? Z.of_nat lenStackTrace - 1
    then addExclusive scaledCount topNFunction
    else topNFunction in
  (map_set frameGroupID topNFunction topNFunctions, uniqueFrameGroupsPerEvent).

(** The body of the outer loop for one entry of [events]. *)
Definition eventStep (scalingFactor : Q) (st : Q * Accumulator)
    (event : StackTraceID * Q) : Q * Accumulator :=
  let '(totalCount, topNFunctions) := st in
  let '(stackTraceID, count) := event in
  let scaledCount := (count * scalingFactor)%Q in
  let totalCount := (totalCount + scaledCount)%Q in
  let stackTrace := default emptyStackTrace (stackTraces !! stackTraceID) in
  let lenStackTrace := length (StackTrace.FrameIDs stackTrace) in
  (totalCount,
   (fold_left (frameStep stackTrace scaledCount) (seq 0 lenStackTrace)
      (topNFunctions, ∅)).1).

(** Both loops: [totalCount] and [topNFunctions] when they end.  [events]
    is the sequence of entries of the [Map] in iteration order. *)
Definition accumulate (samplingRate : Q) (events : list (StackTraceID * Q))
  : Q * Accumulator :=
  let scalingFactor := (1 / samplingRate)%Q in
  fold_left (eventStep scalingFactor) events (0%Q, []).

(** The comparator handed to [sort]. *)
Definition compareTopN (a b : TopNFunctionAndFrameGroup.t) : Z :=
  if Qgtb (TopNFunctionAndFrameGroup.CountExclusive a)
          (TopNFunctionAndFrameGroup.CountExclusive b) then 1
  else if Qltb (TopNFunctionAndFrameGroup.CountExclusive a)
               (TopNFunctionAndFrameGroup.CountExclusive b) then -1
  else localeCompare (TopNFunctionAndFrameGroup.FrameGroupID a)
                     (TopNFunctionAndFrameGroup.FrameGroupID b).

(** [topN] after [.sort(...).reverse()]. *)
Definition rankTopN (topN : list TopNFunctionAndFrameGroup.t)
  : list TopNFunctionAndFrameGroup.t :=
  reverse (js_sort compareTopN topN).

(** The ranking in the words of the specification: one comparator,
    descending by exclusive count, ties broken by descending
    [FrameGroupID], and no reversal. *)
Definition compareTopNDescending (a b : TopNFunctionAndFrameGroup.t) : Z :=
  if Qgtb (TopNFunctionAndFrameGroup.CountExclusive a)
          (TopNFunctionAndFrameGroup.CountExclusive b) then -1
  else if Qltb (TopNFunctionAndFrameGroup.CountExclusive a)
               (TopNFunctionAndFrameGroup.CountExclusive b) then 1
  else localeCompare (TopNFunctionAndFrameGroup.FrameGroupID b)
                     (TopNFunctionAndFrameGroup.FrameGroupID a).

Definition rankTopNDescending (topN : list TopNFunctionAndFrameGroup.t)
  : list TopNFunctionAndFrameGroup.t :=
  js_sort compareTopNDescending topN.

(** The callback of [.map] building one returned row. *)
Definition toTopNFunction (totalCount totalSeconds : Q) (i : nat)
    (frameAndCount : TopNFunctionAndFrameGroup.t) : TopNFunction.t :=
  let countExclusive := TopNFunctionAndFrameGroup.CountExclusive frameAndCount in
  let countInclusive := TopNFunctionAndFrameGroup.CountInclusive frameAndCount in
  let totalCPUPerc := ((countInclusive / totalCount) * 100)%Q in
  let selfCPUPerc := ((countExclusive / totalCount) * 100)%Q in
  let impactEstimates :=
    if Qgtb totalSeconds 0
    then Some (calculateImpactEstimates countExclusive countInclusive
                 totalCount totalSeconds)
    else None in
  {| TopNFunction.Rank := Z.of_nat i + 1;
     TopNFunction.Frame := TopNFunctionAndFrameGroup.Frame frameAndCount;
     TopNFunction.CountExclusive := countExclusive;
     TopNFunction.selfCPUPerc := selfCPUPerc;
     TopNFunction.CountInclusive := countInclusive;
     TopNFunction.totalCPUPerc := totalCPUPerc;
     TopNFunction.Id := TopNFunctionAndFrameGroup.FrameGroupID frameAndCount;
     TopNFunction.impactEstimates := impactEstimates |}.

Definition createTopNFunctions (endIndex : Z)
    (events : list (StackTraceID * Q)) (samplingRate : Q)
    (startIndex : Z) (totalSeconds : Q) : TopNFunctions.t :=
  let '(totalCount, topNFunctions) := accumulate samplingRate events in
  let topN := rankTopN (map_values topNFunctions) in
  let length_ := Z.of_nat (length topN) in
  let startIndex := if length_ <? startIndex then length_ else startIndex in
  let endIndex := if length_ <? endIndex then length_ else endIndex in
  let framesAndCountsAndIds :=
    imap (toTopNFunction totalCount totalSeconds)
         (js_slice topN startIndex endIndex) in
  let sumSelfCPU := sumBy framesAndCountsAndIds TopNFunction.CountExclusive in
  let selfCPUPerc := ((sumSelfCPU / totalCount) * 100)%Q in
  let sumTotalCPU := sumBy framesAndCountsAndIds TopNFunction.CountInclusive in
  let totalCPUPerc := ((sumTotalCPU / totalCount) * 100)%Q in
  let impactEstimates :=
    if Qgtb totalSeconds 0
    then Some (calculateImpactEstimates sumSelfCPU sumTotalCPU
                 totalCount totalSeconds)
    else None in
  {| TopNFunctions.TotalCount := totalCount;
     TopNFunctions.TopN := framesAndCountsAndIds;
     TopNFunctions.SamplingRate := samplingRate;
     TopNFunctions.impactEstimates := impactEstimates;
     TopNFunctions.selfCPUPerc := selfCPUPerc;
     TopNFunctions.totalCPUPerc := totalCPUPerc |}.

(** Reading the accumulator: the counts held for a frame group, [0] when
    the group has no entry yet (an entry starts at [0]). *)
Definition exclusiveOf (k : FrameGroupID) (m : Accumulator) : Q :=
  from_option TopNFunctionAndFrameGroup.CountExclusive 0%Q (map_get k m).

Definition inclusiveOf (k : FrameGroupID) (m : Accumulator) : Q :=
  from_option TopNFunctionAndFrameGroup.CountInclusive 0%Q (map_get k m).

(** The frame groups of a stack trace, by position, and the group at its
    last position. *)
Definition frameGroupsOf (stackTrace : StackTrace.t) : list FrameGroupID :=
  frameGroupIDAt stackTrace <$> seq 0 (length (StackTrace.FrameIDs stackTrace)).

Definition leafGroupOf (stackTrace : StackTrace.t) : option FrameGroupID :=
  last (frameGroupsOf stackTrace).

(** Well-formed accumulators: one entry per key, each filed under its own
    [FrameGroupID]. *)
Definition wellFormed (m : Accumulator) : Prop :=
  NoDup m.*1 ∧
  Forall (λ ke, TopNFunctionAndFrameGroup.FrameGroupID ke.2 = ke.1) m.

(** The sum of a list of numbers. *)
Definition Qsum (l : list Q) : Q := foldr Qplus 0%Q l.

(** The entry an iteration of the inner loop leaves under the frame group
    of position [i]. *)
Definition steppedEntry (stackTrace : StackTrace.t) (scaledCount : Q)
    (m : Accumulator) (u : gset FrameGroupID) (i : nat)
  : TopNFunctionAndFrameGroup.t :=
  let g := frameGroupIDAt stackTrace i in
  let e0 := default (newTopNFunction stackTrace i) (map_get g m) in
  let e1 := if decide (g ∈ u) then e0 else addInclusive scaledCount e0 in
  if Z.of_nat i =? Z.of_nat (length (StackTrace.FrameIDs stackTrace)) - 1
  then addExclusive scaledCount e1 else e1.
End TopN.

(** ** JSON values exchanged by the two routes *)

#[local] Unset Elimination Schemes.
Inductive Json :=
| JNull
| JBool (b : bool)
| JNumber (n : Z)
| JString (s : string)
| JArray (items : list Json)
| JObject (properties : list (string * Json)).
#[local] Set Elimination Schemes.

(** ** [POST /api/watcher/fields]

    The handler that [registerListFieldsRoute] passes to
    [license.guardApiRoute].  The legacy cluster client, the [Fields] model
    and [isEsError] come from outside the excerpt. *)

Module FieldCapsParams.
Record t := mk {
  index : list string;
  fields : list string;
  ignoreUnavailable : bool;
  allowNoIndices : bool;
  ignore : Z;
}.
End FieldCapsParams.

(** What the handler hands back to the router: a response built by
    [response.ok] or [response.customError], or the exception it rethrows. *)
Inductive KibanaResponse :=
| ResponseOk (body : Json)
| ResponseCustomError (statusCode : Z) (body : Json).

Definition responseStatus (r : KibanaResponse) : Z :=
  match r with
  | ResponseOk _ => 200
  | ResponseCustomError statusCode _ => statusCode
  end.

Definition responseBody (r : KibanaResponse) : Json :=
  match r with
  | ResponseOk body => body
  | ResponseCustomError _ body => body
  end.

Section Watcher.
(** A thrown value, with the two properties the handler reads from it. *)
Variable Thrown : Type.
Variable statusCode : Thrown → Z.
Variable message : Thrown → string.
Variable isEsError : Thrown → bool.

(** [Fields.fromUpstreamJson] and the [downstreamJson] getter: pure
    functions of the model, whose rules live outside the excerpt. *)
Variable Fields : Type.
Variable fromUpstreamJson : Json → Fields.
Variable downstreamJson : Fields → Json.

(** [dataClient.callAsCurrentUser(endpoint, params)]: the promise either
    rejects with a thrown value or resolves to the response object, given by
    its properties. *)
Variable callAsCurrentUser :
  string → FieldCapsParams.t → Thrown + list (string * Json).

Inductive HandlerResult :=
| Responded (r : KibanaResponse)
| Rethrown (e : Thrown).

Definition fetchFields (indexes : list string) : Thrown + list (string * Json) :=
  let params :=
    {| FieldCapsParams.index := indexes;
       FieldCapsParams.fields := ["*"];
       FieldCapsParams.ignoreUnavailable := true;
       FieldCapsParams.allowNoIndices := true;
       FieldCapsParams.ignore := 404 |} in
  callAsCurrentUser "fieldCaps" params.

(** [fieldsResponse.status === 404] *)
Definition statusIs404 (fieldsResponse : list (string * Json)) : bool :=
  match map_get "status" fieldsResponse with
  | Some (JNumber 404) => true
  | _ => false
  end.

Definition listFieldsHandler (indexes : list string) : HandlerResult :=
  match fetchFields indexes with
  | inr fieldsResponse =>
      let json :=
        if statusIs404 fieldsResponse
        then JObject [("fields", JArray [])]
        else JObject fieldsResponse in
      let fields := fromUpstreamJson json in
      Responded (ResponseOk (downstreamJson fields))
  | inl e =>
      (* Case: Error from Elasticsearch JS client *)
      if isEsError e
      then Responded
             (ResponseCustomError (statusCode e)
                (JObject [("message", JString (message e))]))
      (* Case: default *)
      else Rethrown e
  end.
End Watcher.

Arguments Responded {Thrown}.
Arguments Rethrown {Thrown}.

(** ** The workpad route table: [loadWorkpad] *)

Module Workpad.
Record t := mk {
  id : string;
  page : Z;
  (* every other property of the workpad *)
  rest : list (string * Json);
}.
End Workpad.

(** What [workpadService.get] resolves to: [{ assets, ...workpad }]. *)
Module FetchedWorkpad.
Record t := mk {
  assets : Json;
  workpad : Workpad.t;
}.
End FetchedWorkpad.

(** [params] of the route [/:id(/page/:page)]: the page segment is optional. *)
Module RouteParams.
Record t := mk {
  id : string;
  page : option string;
}.
End RouteParams.

Inductive Action :=
| setAssets (assets : Json)
| resetAssets
| setWorkpad (workpad : Workpad.t)
| gotoPage (pageIndex : Z).

(** The observable steps of a route action, in order: [dispatch(action)]
    and [router.redirectTo(name, { id, page })] ([None] without params). *)
Inductive Effect :=
| Dispatch (a : Action)
| RedirectTo (name : string) (params : option (string * Z)).

(** [parseInt(string, 10)]: leading white space is skipped (the ASCII
    white space characters here), one sign is accepted, then the longest
    prefix of decimal digits is read; [None] is NaN.  [undefined] is first
    converted to the string "undefined". *)
Definition isWhiteSpace (c : ascii) : bool :=
  let n := Ascii.nat_of_ascii c in
  bool_decide (n = 9 ∨ n = 10 ∨ n = 11 ∨ n = 12 ∨ n = 13 ∨ n = 32)%nat.

Definition digitValue (c : ascii) : option Z :=
  let n := Z.of_nat (Ascii.nat_of_ascii c) in
  if (48 <=? n) && (n <=? 57) then Some (n - 48) else None.

Fixpoint skipWhiteSpace (s : string) : string :=
  match s with
  | String c s' => if isWhiteSpace c then skipWhiteSpace s' else s
  | EmptyString => s
  end.

Fixpoint parseDigits (s : string) (acc : option Z) : option Z :=
  match s with
  | String c s' =>
      match digitValue c with
      | Some d => parseDigits s' (Some (10 * default 0 acc + d))
      | None => acc
      end
  | EmptyString => acc
  end.

Definition parseInt (input : option string) : option Z :=
  let inputString := default "undefined"%string input in
  match skipWhiteSpace inputString with
  | String c s =>
      if decide (c = "-"%char) then Z.opp <$> parseDigits s None
      else if decide (c = "+"%char) then parseDigits s None
      else parseDigits (String c s) None
  | EmptyString => None
  end.

Section WorkpadRoutes.
(** The store: its state, the [getWorkpad] selector and what [dispatch]
    makes of the state.  [workpadService.get] resolves to [None] for [null]. *)
Variable State : Type.
Variable getWorkpad : State → Workpad.t.
Variable reduce : State → Action → State.
Variable workpadService_get : string → option FetchedWorkpad.t.

(** The second half of the action, from "fetch the workpad again". *)
Definition loadWorkpadPage (st : State) (done_ : list Effect)
    (params : RouteParams.t) : State * list Effect :=
  let workpad := getWorkpad st in
  match parseInt (RouteParams.page params) with
  | None =>
      (* no page provided, append current page to url *)
      (st, done_ ++ [RedirectTo "loadWorkpad"
                       (Some (Workpad.id workpad, Workpad.page workpad + 1))])
  | Some pageNumber =>
      (* set the active page using the number provided in the url *)
      let pageIndex := pageNumber - 1 in
      if decide (pageIndex ≠ Workpad.page workpad)
      then (reduce st (gotoPage pageIndex), done_ ++ [Dispatch (gotoPage pageIndex)])
      else (st, done_)
  end.

(** The [action] of the route named [loadWorkpad]: the final state of the
    store and the effects performed, in order. *)
Definition loadWorkpad (st : State) (params : RouteParams.t)
  : State * list Effect :=
  let currentWorkpad := getWorkpad st in
  if decide (RouteParams.id params ≠ Workpad.id currentWorkpad) then
    match workpadService_get (RouteParams.id params) with
    | None => (st, [RedirectTo "home" None])
    | Some fetchedWorkpad =>
        let assets := FetchedWorkpad.assets fetchedWorkpad in
        let workpad := FetchedWorkpad.workpad fetchedWorkpad in
        let st := reduce st (setAssets assets) in
        let st := reduce st (setWorkpad workpad) in
        loadWorkpadPage st [Dispatch (setAssets assets); Dispatch (setWorkpad workpad)]
          params
    end
  else loadWorkpadPage st [] params.
End WorkpadRoutes.

(** ** The sort fields of the Top-N functions table

    The string enum [TopNFunctionSortField] and the io-ts runtime type
    [topNFunctionSortFieldRt] checking an unknown value against it. *)

Module TopNFunctionSortField.
Inductive t :=
| Rank
| Frame
| Samples
| SelfCPU
| TotalCPU
| Diff
| AnnualizedCo2
| AnnualizedDollarCost.

(** The runtime value of a member of the enum. *)
Definition value (field : t) : string :=
  match field with
  | Rank => "rank"
  | Frame => "frame"
  | Samples => "samples"
  | SelfCPU => "selfCPU"
  | TotalCPU => "totalCPU"
  | Diff => "diff"
  | AnnualizedCo2 => "annualizedCo2"
  | AnnualizedDollarCost => "annualizedDollarCost"
  end.
End TopNFunctionSortField.

(** [t.literal(v).is(u)]: [u === v]. *)
Definition t_literal (v : string) (u : Json) : bool :=
  match u with
  | JString s => bool_decide (s = v)
  | _ => false
  end.

(** [t.union(members).is(u)]: some member accepts [u]. *)
Definition t_union (members : list (Json → bool)) (u : Json) : bool :=
  existsb (λ member, member u) members.

Definition topNFunctionSortFieldRt : Json → bool :=
  t_union
    [t_literal (TopNFunctionSortField.value TopNFunctionSortField.Rank);
     t_literal (TopNFunctionSortField.value TopNFunctionSortField.Frame);
     t_literal (TopNFunctionSortField.value TopNFunctionSortField.Samples);
     t_literal (TopNFunctionSortField.value TopNFunctionSortField.SelfCPU);
     t_literal (TopNFunctionSortField.value TopNFunctionSortField.TotalCPU);
     t_literal (TopNFunctionSortField.value TopNFunctionSortField.Diff);
     t_literal (TopNFunctionSortField.value TopNFunctionSortField.AnnualizedCo2);
     t_literal (TopNFunctionSortField.value TopNFunctionSortField.AnnualizedDollarCost)].

(** ** The workpad route table: [createWorkpad] *)

Section WorkpadCreate.
Variable State : Type.
Variable reduce : State → Action → State.

(** The workpad [getDefaultWorkpad()] returns on this navigation. *)
Variable newWorkpad : Workpad.t.

(** [workpadService.create]: the promise resolves ([None]) or rejects with
    a value. *)
Variable Rejection : Type.
Variable workpadService_create : Workpad.t → option Rejection.

(** The [action] of the route named [createWorkpad]: the rejection that
    escapes it, or the final state of the store and the effects performed. *)
Definition createWorkpad (st : State) : Rejection + State * list Effect :=
  match workpadService_create newWorkpad with
  | Some rejection => inl rejection
  | None =>
      let st := reduce st (setWorkpad newWorkpad) in
      let st := reduce st resetAssets in
      inr (st, [Dispatch (setWorkpad newWorkpad); Dispatch resetAssets;
                RedirectTo "loadWorkpad" (Some (Workpad.id newWorkpad, 1))])
  end.
End WorkpadCreate.

(** ** The assistant panel: what one render derives from props, context
    and state

    The values below are the ones [AssistantComponent] computes with plain
    expressions (some of them wrapped in [useMemo]) and the calls its
    effects make; rendering itself is not modelled. *)

Module Conversation.
Record t := mk {
  id : string;
  (* apiConfig.connectorId, [None] when null or undefined *)
  connectorId : option string;
  messagesLength : nat;
  (* an optional flag: undefined is falsy *)
  excludeFromLastConversationStorage : bool;
}.
End Conversation.

Section Assistant.
(** [WELCOME_CONVERSATION_TITLE], a constant imported from the translations. *)
Variable WELCOME_CONVERSATION_TITLE : string.

(** [conversations] is a record keyed by conversation id; [connectors] is
    the data of the connector query, [None] while it is undefined, given by
    the ids of the connectors. *)
Definition isWelcomeSetup (conversations : list (string * Conversation.t))
    (connectors : option (list string)) : bool :=
  if existsb (λ conversation : string * Conversation.t,
                bool_decide (is_Some (Conversation.connectorId conversation.2)))
       conversations
  then false
  else bool_decide (default 0%nat (length <$> connectors) = 0%nat).

Definition isDisabled (conversations : list (string * Conversation.t))
    (connectors : option (list string)) (isAssistantEnabled : bool) : bool :=
  isWelcomeSetup conversations connectors || negb isAssistantEnabled.

Definition isSendingDisabled (conversations : list (string * Conversation.t))
    (connectors : option (list string)) (isAssistantEnabled : bool)
    (showMissingConnectorCallout : bool) : bool :=
  isDisabled conversations connectors isAssistantEnabled
  || showMissingConnectorCallout.

(** The [value] handed to the prompt text area. *)
Definition promptValue (conversations : list (string * Conversation.t))
    (connectors : option (list string)) (isAssistantEnabled : bool)
    (showMissingConnectorCallout : bool) (userPrompt : option string) : string :=
  if isSendingDisabled conversations connectors isAssistantEnabled
       showMissingConnectorCallout
  then "" else default "" userPrompt.

(** The effect "Remember last selection": the argument of the call to
    [setLastConversationId] it makes, [None] when it makes none. *)
Definition lastConversationEffect (areConnectorsFetched : bool)
    (connectors : option (list string)) (currentConversation : Conversation.t)
  : option string :=
  if areConnectorsFetched
     && negb (bool_decide (default 0%nat (length <$> connectors) ≠ 0%nat))
  then Some WELCOME_CONVERSATION_TITLE
  else if negb (Conversation.excludeFromLastConversationStorage currentConversation)
  then Some (Conversation.id currentConversation)
  else None.

(** The effect "Show missing connector callout": the argument of its call
    to [setShowMissingConnectorCallout]. *)
Definition missingConnectorEffect (connectors : option (list string))
    (currentConversation : Conversation.t) : bool :=
  let connectorExists :=
    default false
      ((λ connectors : list string,
          existsb (λ connectorId,
                     bool_decide (Some connectorId =
                                  Conversation.connectorId currentConversation))
            connectors) <$> connectors) in
  negb connectorExists.
End Assistant.

(** ** The two loops of [createTopNFunctions] in binary64

    The counts of the code are JavaScript numbers.  The definitions above
    read them as exact rationals; the ones of this module follow lines 76 to
    143 of the code with the binary64 operations themselves, so that every
    product and every sum rounds as it does in the program.  The frame
    groups of a trace do not depend on the counts: [frameGroupIDAt],
    [frameGroupsOf] and [leafGroupOf] serve both readings. *)

Module Binary64.

Record TopNFunctionAndFrameGroup `{ProfilingImports} := mkTopNFunctionAndFrameGroup {
  Frame : StackFrameMetadata;
  FrameGroupID : FrameGroupID;
  CountExclusive : float;
  CountInclusive : float;
}.

Section Loops.
Context `{ProfilingImports}.

(** The three lookup tables are only read. *)
Variable executables : gmap FileID Executable.t.
Variable stackFrames : gmap StackFrameID StackFrame.t.
Variable stackTraces : gmap StackTraceID StackTrace.t.

(** The entry created the first time a frame group is met. *)
Definition newTopNFunction (stackTrace : StackTrace.t) (i : nat)
  : TopNFunctionAndFrameGroup :=
  let frame := frameAt stackFrames stackTrace i in
  let executable := executableAt executables stackTrace i in
  {| Frame :=
       createStackFrameMetadata
         {| StackFrameMetadataOptions.FrameID := StackTrace.FrameIDs stackTrace !! i;
            StackFrameMetadataOptions.FileID := StackTrace.FileIDs stackTrace !! i;
            StackFrameMetadataOptions.AddressOrLine :=
              StackTrace.AddressOrLines stackTrace !! i;
            StackFrameMetadataOptions.FrameType := StackTrace.Types stackTrace !! i;
            StackFrameMetadataOptions.Inline := StackFrame.Inline frame;
            StackFrameMetadataOptions.FunctionName := StackFrame.FunctionName frame;
            StackFrameMetadataOptions.FunctionOffset := StackFrame.FunctionOffset frame;
            StackFrameMetadataOptions.SourceLine := StackFrame.LineNumber frame;
            StackFrameMetadataOptions.SourceFilename := StackFrame.FileName frame;
            StackFrameMetadataOptions.ExeFileName := Executable.FileName executable |};
     FrameGroupID := frameGroupIDAt executables stackFrames stackTrace i;
     CountExclusive := 0%float;
     CountInclusive := 0%float |}.

(** [topNFunction.CountInclusive += scaledCount] *)
Definition addInclusive (scaledCount : float) (e : TopNFunctionAndFrameGroup)
  : TopNFunctionAndFrameGroup :=
  {| Frame := Frame e;
     FrameGroupID := FrameGroupID e;
     CountExclusive := CountExclusive e;
     CountInclusive := (CountInclusive e + scaledCount)%float |}.

(** [topNFunction.CountExclusive += scaledCount] *)
Definition addExclusive (scaledCount : float) (e : TopNFunctionAndFrameGroup)
  : TopNFunctionAndFrameGroup :=
  {| Frame := Frame e;
     FrameGroupID := FrameGroupID e;
     CountExclusive := (CountExclusive e + scaledCount)%float;
     CountInclusive := CountInclusive e |}.

(** The body of the inner loop at position [i]. *)
Definition frameStep (stackTrace : StackTrace.t) (scaledCount : float)
    (st : list (string * TopNFunctionAndFrameGroup) * gset string) (i : nat)
  : list (string * TopNFunctionAndFrameGroup) * gset string :=
  let '(topNFunctions, uniqueFrameGroupsPerEvent) := st in
  let lenStackTrace := length (StackTrace.FrameIDs stackTrace) in
  let frameGroupID := frameGroupIDAt executables stackFrames stackTrace i in
  let '(topNFunction, topNFunctions) :=
    match map_get frameGroupID topNFunctions with
    | Some e => (e, topNFunctions)
    | None =>
        let e := newTopNFunction stackTrace i in
        (e, map_set frameGroupID e topNFunctions)
    end in
  let '(topNFunction, uniqueFrameGroupsPerEvent) :=
    if decide (frameGroupID ∈ uniqueFrameGroupsPerEvent)
    then (topNFunction, uniqueFrameGroupsPerEvent)
    else (addInclusive scaledCount topNFunction,
          {[frameGroupID]} ∪ uniqueFrameGroupsPerEvent) in
  let topNFunction :=
    if Z.of_nat i =? Z.of_nat lenStackTrace - 1
    then addExclusive scaledCount topNFunction
    else topNFunction in
  (map_set frameGroupID topNFunction topNFunctions, uniqueFrameGroupsPerEvent).

(** The body of the outer loop for one entry of [events]. *)
Definition eventStep (scalingFactor : float)
    (st : float * list (string * TopNFunctionAndFrameGroup))
    (event : string * float)
  : float * list (string * TopNFunctionAndFrameGroup) :=
  let '(totalCount, topNFunctions) := st in
  let '(stackTraceID, count) := event in
  let scaledCount := (count * scalingFactor)%float in
  let totalCount := (totalCount + scaledCount)%float in
  let stackTrace := default emptyStackTrace (stackTraces !! stackTraceID) in
  let lenStackTrace := length (StackTrace.FrameIDs stackTrace) in
  (totalCount,
   (fold_left (frameStep stackTrace scaledCount) (seq 0 lenStackTrace)
      (topNFunctions, ∅)).1).

(** Both loops: [totalCount] and [topNFunctions] when they end. *)
Definition accumulate (samplingRate : float) (events : list (string * float))
  : float * list (string * TopNFunctionAndFrameGroup) :=
  let scalingFactor := (1 / samplingRate)%float in
  fold_left (eventStep scalingFactor) events (0%float, []).

(** The [TotalCount] of the returned object: [totalCount], as the loops
    leave it. *)
Definition TotalCount (samplingRate : float) (events : list (string * float))
  : float :=
  (accumulate samplingRate events).1.

(** Reading the accumulator: the counts held for a frame group, [0] when
    the group has no entry yet. *)
Definition exclusiveOf (k : string) (m : list (string * TopNFunctionAndFrameGroup))
  : float :=
  from_option CountExclusive 0%float (map_get k m).

Definition inclusiveOf (k : string) (m : list (string * TopNFunctionAndFrameGroup))
  : float :=
  from_option CountInclusive 0%float (map_get k m).

(** The entry an iteration of the inner loop leaves under the frame group
    of position [i]. *)
Definition steppedEntry (stackTrace : StackTrace.t) (scaledCount : float)
    (m : list (string * TopNFunctionAndFrameGroup)) (u : gset string) (i : nat)
  : TopNFunctionAndFrameGroup :=
  let g := frameGroupIDAt executables stackFrames stackTrace i in
  let e0 := default (newTopNFunction stackTrace i) (map_get g m) in
  let e1 := if decide (g ∈ u) then e0 else addInclusive scaledCount e0 in
  if Z.of_nat i =? Z.of_nat (length (StackTrace.FrameIDs stackTrace)) - 1
  then addExclusive scaledCount e1 else e1.
End Loops.

(** The sum of a list of numbers, added from left to right. *)
Definition sum (l : list float) : float :=
  fold_left PrimFloat.add l 0%float.
End Binary64.

(** ** Sample inputs

    Concrete tables on which the statements below are exercised.  The frame
    group of a frame is taken to be its file ID, the metadata is the record
    of options itself and an impact estimate records its four arguments. *)

Definition sampleImports : ProfilingImports := {|
  StackFrameMetadata := StackFrameMetadataOptions.t;
  ImpactEstimates := Q * Q * Q * Q;
  createFrameGroupID := λ fileID _ _ _ _, default "" fileID;
  createStackFrameMetadata := λ options, options;
  calculateImpactEstimates := λ countExclusive countInclusive totalSamples totalSeconds,
    (countExclusive, countInclusive, totalSamples, totalSeconds);
  emptyStackTrace := StackTrace.mk [] [] [] [];
  emptyStackFrame := StackFrame.mk "" "" 0 0 false;
  emptyExecutable := Executable.mk "";
|}.

(** Frames [A, B, C], leaf [C]. *)
Definition traceABC : StackTrace.t :=
  StackTrace.mk ["f1"; "f2"; "f3"] ["A"; "B"; "C"] [1; 2; 3] [0; 0; 0].

(** Frames [A, A, B], leaf [B]. *)
Definition traceAAB : StackTrace.t :=
  StackTrace.mk ["f1"; "f2"; "f3"] ["A"; "A"; "B"] [1; 2; 3] [0; 0; 0].

(** Five frame groups, each the leaf of one trace. *)
Definition fiveTraces : gmap StackTraceID StackTrace.t :=
  list_to_map
    [("T1", StackTrace.mk ["f1"] ["A"] [1] [0]);
     ("T2", StackTrace.mk ["f2"] ["B"] [2] [0]);
     ("T3", StackTrace.mk ["f3"] ["C"] [3] [0]);
     ("T4", StackTrace.mk ["f4"] ["D"] [4] [0]);
     ("T5", StackTrace.mk ["f5"] ["E"] [5] [0])].

Definition fiveEvents : list (StackTraceID * Q) :=
  [("T1", 3%Q); ("T2", 1%Q); ("T3", 4%Q); ("T4", 1%Q); ("T5", 5%Q)].

(** A cluster client for the field route.  A thrown value is its status
    code, its message and whether it comes from the search client.  No index
    at all makes the client fail with a recognised error, the index
    ["broken"] with an unrecognised one, ["missing"] resolves to a 404
    response and anything else to a field-capabilities response. *)
Definition sampleThrown : Type := Z * string * bool.

Definition sampleCallAsCurrentUser (endpoint : string)
    (params : FieldCapsParams.t) : sampleThrown + list (string * Json) :=
  match FieldCapsParams.index params with
  | [] => inl (503, "cluster unavailable", true)
  | index :: _ =>
      if decide (index = "broken") then inl (500, "socket hang up", false)
      else if decide (index = "missing") then inr [("status", JNumber 404)]
      else inr [("fields",
                 JObject [("host.name",
                           JObject [("keyword", JObject [("type", JString "keyword")])])])]
  end.

Definition sampleListFieldsHandler (indexes : list string)
  : HandlerResult sampleThrown :=
  listFieldsHandler sampleThrown (λ e, e.1.1) (λ e, e.1.2) (λ e, e.2)
    Json (λ json, json) (λ fields, fields) sampleCallAsCurrentUser indexes.

(** A store whose state is the current workpad alone. *)
Definition sampleReduce (st : Workpad.t) (a : Action) : Workpad.t :=
  match a with
  | setWorkpad workpad => workpad
  | gotoPage pageIndex => Workpad.mk (Workpad.id st) pageIndex (Workpad.rest st)
  | setAssets _ | resetAssets => st
  end.

Definition sampleLoadWorkpad (st : Workpad.t) (params : RouteParams.t)
  : Workpad.t * list Effect :=
  loadWorkpad Workpad.t (λ st, st) sampleReduce (λ _, None) st params.

(** The workpad ["W1"], currently on its third page (index 2). *)
Definition workpadW1 : Workpad.t := Workpad.mk "W1" 2 [].

(** A workpad service that knows the workpad ["W2"] alone. *)
Definition sampleWorkpadService (id : string) : option FetchedWorkpad.t :=
  if decide (id = "W2")
  then Some (FetchedWorkpad.mk (JArray []) (Workpad.mk "W2" 0 []))
  else None.

(** A conversation bound to the connector ["c1"]. *)
Definition sampleConversation : Conversation.t :=
  Conversation.mk "Alert summary" (Some "c1") 0 false.

(** The binary64 number that the literal [0.9] denotes. *)
Definition ninetyPercent : float := 0x1.ccccccccccccdp-1%float.

(** * Properties *)

(** ** The accumulator as a [Map] *)

Section JsMapFacts.
Context {V : Type}.
Implicit Types (m : list (string * V)) (k : string) (v : V).

Lemma map_get_set_eq m k v : map_get k (map_set k v m) = Some v.
Proof.
  induction m as [|[k' v'] m IH]; simpl.
  - by rewrite decide_True.
  - destruct (decide (k = k')) as [->|Hne]; simpl.
    + by rewrite decide_True.
    + by rewrite decide_False.
Qed.

Lemma map_get_set_ne m k k' v :
  k ≠ k' → map_get k' (map_set k v m) = map_get k' m.
Proof.
  intros Hne. induction m as [|[k0 v0] m IH]; simpl.
  - by rewrite decide_False.
  - destruct (decide (k = k0)) as [->|Hne0]; simpl.
    + by rewrite !decide_False.
    + by rewrite IH.
Qed.

Lemma map_get_set m k k' v :
  map_get k' (map_set k v m) = if decide (k' = k) then Some v else map_get k' m.
Proof.
  case_decide as Hk.
  - subst. apply map_get_set_eq.
  - apply map_get_set_ne. congruence.
Qed.

Lemma map_get_None m k : map_get k m = None ↔ k ∉ m.*1.
Proof.
  induction m as [|[k' v'] m IH]; simpl.
  - split; [intros _; apply not_elem_of_nil|done].
  - rewrite not_elem_of_cons. case_decide as Hk.
    + split; [done|]. by intros [? _].
    + rewrite IH. split; [by intros ?|]. by intros [_ ?].
Qed.


Lemma map_set_keys m k v :
  (map_set k v m).*1 = if decide (k ∈ m.*1) then m.*1 else m.*1 ++ [k].
Proof.
  induction m as [|[k' v'] m IH]; cbn [map_set].
  - case_decide as Hin; [by apply elem_of_nil in Hin|done].
  - rewrite fmap_cons. cbn [fst].
    destruct (decide (k = k')) as [->|Hne].
    + rewrite fmap_cons. cbn [fst]. rewrite decide_True; [done|left].
    + rewrite fmap_cons, IH. cbn [fst].
      destruct (decide (k ∈ m.*1)) as [Hin|Hin].
      * rewrite decide_True; [done|by right].
      * rewrite decide_False; [done|].
        rewrite not_elem_of_cons. done.
Qed.

Lemma map_set_NoDup m k v : NoDup m.*1 → NoDup (map_set k v m).*1.
Proof.
  intros Hnd. rewrite map_set_keys. case_decide as Hin; [done|].
  apply NoDup_app. split_and!; [done| |apply NoDup_singleton].
  intros x Hx ->%list_elem_of_singleton. done.
Qed.

Lemma map_set_elem_of m k v k' v' :
  (k', v') ∈ map_set k v m → (k' = k ∧ v' = v) ∨ (k', v') ∈ m.
Proof.
  induction m as [|[k0 v0] m IH]; simpl.
  - intros ?%list_elem_of_singleton. simplify_eq. by left.
  - case_decide; subst.
    + intros [?|?]%elem_of_cons; simplify_eq; [by left|right; by right].
    + intros [?|Hin]%elem_of_cons; simplify_eq; [right; by left|].
      destruct (IH Hin) as [?|?]; [by left|right; by right].
Qed.
End JsMapFacts.

(** ** [sort] and [slice] *)

Section SortFacts.
Context {A : Type} (cmp : A → A → Z).

(** [a] may stand before [b] in an array sorted by [cmp]. *)
Local Abbreviation before := (λ a b : A, cmp a b <= 0).

Lemma sort_insert_Permutation x l : sort_insert cmp x l ≡ₚ x :: l.
Proof.
  induction l as [|y l IH]; cbn [sort_insert]; [done|].
  destruct (0 <? cmp x y); [|done].
  rewrite IH. apply Permutation_swap.
Qed.

Lemma js_sort_Permutation l : js_sort cmp l ≡ₚ l.
Proof.
  induction l as [|x l IH]; [done|].
  unfold js_sort in *. cbn [foldr]. by rewrite sort_insert_Permutation, IH.
Qed.

Lemma js_sort_length l : length (js_sort cmp l) = length l.
Proof. by rewrite js_sort_Permutation. Qed.

Lemma sort_insert_HdRel x y l :
  before y x → HdRel before y l → HdRel before y (sort_insert cmp x l).
Proof.
  intros Hyx Hyl. destruct l as [|z l]; cbn [sort_insert].
  - by constructor.
  - destruct (0 <? cmp x z); constructor; [|done]. by inversion Hyl.
Qed.

Lemma js_sort_ext (cmp' : A → A → Z) l :
  (∀ x y, cmp x y = cmp' x y) → js_sort cmp l = js_sort cmp' l.
Proof.
  intros Hext. induction l as [|x l IH]; [done|].
  unfold js_sort in *. cbn [foldr]. rewrite IH.
  generalize (foldr (sort_insert cmp') [] l). intros l'.
  induction l' as [|y l' IH']; cbn [sort_insert]; [done|].
  by rewrite Hext, IH'.
Qed.

(** A comparator that never puts each of two elements after the other. *)
Hypothesis cmp_total : ∀ x y, 0 < cmp x y → cmp y x <= 0.

Lemma sort_insert_Sorted x l :
  Sorted before l → Sorted before (sort_insert cmp x l).
Proof.
  induction 1 as [|y l Hl IH Hy]; cbn [sort_insert].
  - by repeat constructor.
  - destruct (Z.ltb_spec 0 (cmp x y)) as [Hlt|Hge].
    + constructor; [done|]. apply sort_insert_HdRel; [|done]. by apply cmp_total.
    + constructor; [by constructor|]. constructor. lia.
Qed.

Lemma js_sort_Sorted l : Sorted before (js_sort cmp l).
Proof.
  induction l as [|x l IH]; [constructor|].
  unfold js_sort in *. cbn [foldr]. by apply sort_insert_Sorted.
Qed.
End SortFacts.

Section SliceFacts.
Context {A : Type}.
Implicit Types (l : list A) (x : A).

Lemma js_slice_elem_of l start end_ x : x ∈ js_slice l start end_ → x ∈ l.
Proof.
  unfold js_slice. intros Hin.
  apply elem_of_take in Hin as (i & Hi & _).
  rewrite lookup_drop in Hi. by eapply list_elem_of_lookup_2.
Qed.

Lemma js_slice_lookup l start end_ j x :
  js_slice l start end_ !! j = Some x →
  l !! (Z.to_nat (slice_index (Z.of_nat (length l)) start) + j)%nat = Some x ∧
  slice_index (Z.of_nat (length l)) start + Z.of_nat j <
    slice_index (Z.of_nat (length l)) end_.
Proof.
  unfold js_slice. intros Hj.
  apply lookup_take_Some in Hj as [Hj Hlt].
  rewrite lookup_drop in Hj. split; [done|]. lia.
Qed.

Lemma slice_index_range len k :
  0 <= len → 0 <= slice_index len k <= len.
Proof. unfold slice_index. destruct (Z.ltb_spec k 0); lia. Qed.

Lemma js_slice_length l start end_ :
  Z.of_nat (length (js_slice l start end_)) =
    Z.max (slice_index (Z.of_nat (length l)) end_ -
           slice_index (Z.of_nat (length l)) start) 0.
Proof.
  unfold js_slice. rewrite length_take, length_drop.
  pose proof (slice_index_range (Z.of_nat (length l)) start ltac:(lia)).
  pose proof (slice_index_range (Z.of_nat (length l)) end_ ltac:(lia)).
  lia.
Qed.

Lemma js_slice_past_end l start end_ :
  Z.of_nat (length l) <= start → js_slice l start end_ = [].
Proof.
  intros Hstart. apply length_zero_iff_nil.
  pose proof (js_slice_length l start end_) as Hlen.
  pose proof (slice_index_range (Z.of_nat (length l)) end_ ltac:(lia)).
  assert (slice_index (Z.of_nat (length l)) start = Z.of_nat (length l)) as Hs.
  { unfold slice_index. destruct (Z.ltb_spec start 0); lia. }
  lia.
Qed.
End SliceFacts.

(** ** One iteration of the inner loop *)

Section TopNFacts.
Context `{ProfilingImports}.
Variable executables : gmap FileID Executable.t.
Variable stackFrames : gmap StackFrameID StackFrame.t.
Variable stackTraces : gmap StackTraceID StackTrace.t.

Local Abbreviation frameStep := (frameStep executables stackFrames).
Local Abbreviation frameGroupIDAt := (frameGroupIDAt executables stackFrames).
Local Abbreviation newTopNFunction := (newTopNFunction executables stackFrames).
Local Abbreviation steppedEntry := (steppedEntry executables stackFrames).
Local Abbreviation frameGroupsOf := (frameGroupsOf executables stackFrames).
Local Abbreviation leafGroupOf := (leafGroupOf executables stackFrames).
Local Abbreviation eventStep := (eventStep executables stackFrames stackTraces).
Local Abbreviation accumulate := (accumulate executables stackFrames stackTraces).
Local Abbreviation createTopNFunctions :=
  (createTopNFunctions executables stackFrames stackTraces).

Implicit Types (m : Accumulator) (u : gset FrameGroupID) (k : FrameGroupID).
Implicit Types (tr : StackTrace.t) (s : Q) (i : nat).

Lemma frameStep_unfold tr s m u i :
  frameStep tr s (m, u) i =
    (map_set (frameGroupIDAt tr i) (steppedEntry tr s m u i)
       (if map_get (frameGroupIDAt tr i) m is Some _ then m
        else map_set (frameGroupIDAt tr i) (newTopNFunction tr i) m),
     {[frameGroupIDAt tr i]} ∪ u).
Proof.
  unfold frameStep, steppedEntry.
  destruct (map_get _ m) as [e|] eqn:Hget; simpl;
    destruct (decide (_ ∈ u)) as [Hin|Hin]; simpl;
    f_equal; try reflexivity;
    symmetry; by apply subseteq_union_1_L, singleton_subseteq_l.
Qed.

Lemma frameStep_get tr s m u i k :
  map_get k (frameStep tr s (m, u) i).1 =
    if decide (k = frameGroupIDAt tr i) then Some (steppedEntry tr s m u i)
    else map_get k m.
Proof.
  rewrite frameStep_unfold. cbn [fst]. rewrite map_get_set.
  case_decide as Hk; [done|].
  destruct (map_get (frameGroupIDAt tr i) m); [done|].
  by rewrite map_get_set, decide_False.
Qed.

Lemma frameStep_seen tr s m u i :
  (frameStep tr s (m, u) i).2 = {[frameGroupIDAt tr i]} ∪ u.
Proof. by rewrite frameStep_unfold. Qed.

(** The exclusive count moves only at the last position, and only for the
    frame group found there. *)
Lemma frameStep_exclusive tr s m u i k :
  exclusiveOf k (frameStep tr s (m, u) i).1 =
    if decide (k = frameGroupIDAt tr i ∧
               Z.of_nat i = Z.of_nat (length (StackTrace.FrameIDs tr)) - 1)
    then (exclusiveOf k m + s)%Q else exclusiveOf k m.
Proof.
  unfold exclusiveOf. rewrite frameStep_get.
  destruct (decide (k = frameGroupIDAt tr i)) as [->|Hk].
  - unfold steppedEntry. cbn [from_option].
    destruct (Z.eqb_spec (Z.of_nat i) (Z.of_nat (length (StackTrace.FrameIDs tr)) - 1))
      as [Hi|Hi].
    + destruct (map_get (frameGroupIDAt tr i) m);
        destruct (decide (frameGroupIDAt tr i ∈ u));
        rewrite decide_True by (split; [reflexivity|exact Hi]); reflexivity.
    + destruct (map_get (frameGroupIDAt tr i) m);
        destruct (decide (frameGroupIDAt tr i ∈ u));
        rewrite decide_False by (by intros [_ ?]); reflexivity.
  - rewrite decide_False by (by intros [? _]). done.
Qed.

(** The inclusive count moves only for the frame group of the position,
    and only when the event has not met that group before. *)
Lemma frameStep_inclusive tr s m u i k :
  inclusiveOf k (frameStep tr s (m, u) i).1 =
    if decide (k = frameGroupIDAt tr i ∧ k ∉ u)
    then (inclusiveOf k m + s)%Q else inclusiveOf k m.
Proof.
  unfold inclusiveOf. rewrite frameStep_get.
  destruct (decide (k = frameGroupIDAt tr i)) as [->|Hk].
  - unfold steppedEntry. cbn [from_option].
    destruct (decide (frameGroupIDAt tr i ∈ u)) as [Hin|Hin].
    + rewrite (decide_False (P := _ ∧ _)) by (by intros [_ ?]).
      destruct (map_get (frameGroupIDAt tr i) m); destruct (_ =? _); reflexivity.
    + rewrite (decide_True (P := _ ∧ _)) by (split; [reflexivity|exact Hin]).
      destruct (map_get (frameGroupIDAt tr i) m); destruct (_ =? _); reflexivity.
  - rewrite decide_False by (by intros [? _]). done.
Qed.

(** ** The inner loop over a list of positions *)

Lemma frames_seen tr s (positions : list nat) m u :
  (fold_left (frameStep tr s) positions (m, u)).2 =
    list_to_set (frameGroupIDAt tr <$> positions) ∪ u.
Proof.
  revert m u. induction positions as [|i positions IH]; intros m u.
  - simpl. by rewrite union_empty_l_L.
  - cbn [fold_left]. destruct (frameStep tr s (m, u) i) as [m1 u1] eqn:E.
    rewrite IH. pose proof (frameStep_seen tr s m u i) as Hu.
    rewrite E in Hu. cbn [snd] in Hu. subst u1.
    rewrite fmap_cons, list_to_set_cons. by rewrite (assoc_L (∪)), (comm_L (∪) _ {[_]}).
Qed.

(** Deduplication: over the positions of one event the inclusive count of a
    frame group moves by [s] once if the group occurs at some position and
    was not met before, and does not move otherwise. *)
Lemma frames_inclusive tr s (positions : list nat) m u k :
  inclusiveOf k (fold_left (frameStep tr s) positions (m, u)).1 =
    if decide (k ∈ (frameGroupIDAt tr <$> positions) ∧ k ∉ u)
    then (inclusiveOf k m + s)%Q else inclusiveOf k m.
Proof.
  revert m u. induction positions as [|i positions IH]; intros m u.
  - cbn [fold_left fst]. rewrite decide_False; [done|].
    intros [Hin _]. by apply elem_of_nil in Hin.
  - cbn [fold_left]. destruct (frameStep tr s (m, u) i) as [m1 u1] eqn:E.
    rewrite IH.
    pose proof (frameStep_seen tr s m u i) as Hu.
    pose proof (frameStep_inclusive tr s m u i k) as Hk.
    rewrite E in Hu, Hk. cbn [fst snd] in Hu, Hk. subst u1. rewrite Hk.
    rewrite fmap_cons.
    destruct (decide (k = frameGroupIDAt tr i)) as [->|Hne].
    + rewrite (decide_False (P := _ ∧ _ ∉ _ ∪ _)).
      2:{ intros [_ Hnot]. apply Hnot, elem_of_union_l, elem_of_singleton. done. }
      destruct (decide (frameGroupIDAt tr i ∈ u)) as [Hin|Hin].
      * rewrite !decide_False; [done|by intros [_ ?]|by intros [_ ?]].
      * rewrite !decide_True; [done|split; [left|done]|by split].
    + rewrite (decide_False (P := k = _ ∧ _)) by (by intros [? _]).
      destruct (decide (k ∈ (frameGroupIDAt tr <$> positions) ∧ k ∉ u)) as [[Hin Hu]|Hn].
      * rewrite !decide_True; [done|split; [by right|done]|].
        split; [done|]. rewrite not_elem_of_union, not_elem_of_singleton. done.
      * rewrite !decide_False; [done| |].
        -- intros [[?|Hin]%elem_of_cons Hu]; [done|]. by apply Hn.
        -- intros [Hin Hu]. apply Hn. split; [done|].
           intros ?. apply Hu. by apply elem_of_union_r.
Qed.

Lemma frames_exclusive_unchanged tr s (positions : list nat) m u k :
  Forall (λ i, Z.of_nat i ≠ Z.of_nat (length (StackTrace.FrameIDs tr)) - 1)
    positions →
  exclusiveOf k (fold_left (frameStep tr s) positions (m, u)).1 = exclusiveOf k m.
Proof.
  revert m u. induction positions as [|i positions IH]; intros m u Hall; [done|].
  apply Forall_cons in Hall as [Hi Hall].
  cbn [fold_left]. destruct (frameStep tr s (m, u) i) as [m1 u1] eqn:E.
  rewrite IH by done.
  pose proof (frameStep_exclusive tr s m u i k) as Hk.
  rewrite E in Hk. cbn [fst] in Hk. rewrite Hk.
  rewrite decide_False; [done|]. by intros [_ ?].
Qed.

Lemma leafGroupOf_nil tr :
  length (StackTrace.FrameIDs tr) = 0%nat → leafGroupOf tr = None.
Proof. unfold leafGroupOf, frameGroupsOf. by intros ->. Qed.

Lemma leafGroupOf_last tr n :
  length (StackTrace.FrameIDs tr) = S n →
  leafGroupOf tr = Some (frameGroupIDAt tr n).
Proof.
  unfold leafGroupOf, frameGroupsOf. intros ->.
  rewrite seq_S, fmap_app. cbn [fmap list_fmap Nat.add]. apply last_snoc.
Qed.

(** Over all the positions of a stack trace the exclusive count moves by
    [s] for the frame group at the last position and for no other. *)
Lemma frames_exclusive tr s m u k :
  exclusiveOf k
    (fold_left (frameStep tr s) (seq 0 (length (StackTrace.FrameIDs tr))) (m, u)).1 =
    if decide (leafGroupOf tr = Some k)
    then (exclusiveOf k m + s)%Q else exclusiveOf k m.
Proof.
  destruct (length (StackTrace.FrameIDs tr)) as [|n] eqn:Hlen.
  - rewrite leafGroupOf_nil by done. by rewrite decide_False.
  - rewrite (leafGroupOf_last tr n) by done.
    rewrite seq_S, fold_left_app. cbn [Nat.add fold_left].
    destruct (fold_left (frameStep tr s) (seq 0 n) (m, u)) as [m1 u1] eqn:E.
    assert (exclusiveOf k m1 = exclusiveOf k m) as Hpre.
    { pose proof (frames_exclusive_unchanged tr s (seq 0 n) m u k) as Hun.
      rewrite E in Hun. apply Hun. apply Forall_forall. intros i Hi.
      apply elem_of_seq in Hi. rewrite Hlen. lia. }
    rewrite frameStep_exclusive, Hpre, Hlen.
    destruct (decide (k = frameGroupIDAt tr n)) as [->|Hne].
    + rewrite !decide_True; [done|done|split; [done|lia]].
    + rewrite !decide_False; [done|congruence|by intros [? _]].
Qed.

(** ** One event *)

Local Abbreviation traceOf stackTraceID :=
  (default emptyStackTrace (stackTraces !! stackTraceID)).

Lemma eventStep_total sf total m stackTraceID count :
  (eventStep sf (total, m) (stackTraceID, count)).1 = (total + count * sf)%Q.
Proof. reflexivity. Qed.

Lemma eventStep_inclusive sf total m stackTraceID count k :
  inclusiveOf k (eventStep sf (total, m) (stackTraceID, count)).2 =
    if decide (k ∈ frameGroupsOf (traceOf stackTraceID))
    then (inclusiveOf k m + count * sf)%Q else inclusiveOf k m.
Proof.
  unfold eventStep. cbn [snd]. rewrite frames_inclusive.
  unfold frameGroupsOf.
  destruct (decide (k ∈ _ <$> seq 0 _)) as [Hin|Hin].
  - rewrite decide_True; [done|]. split; [done|apply not_elem_of_empty].
  - rewrite decide_False; [done|]. by intros [? _].
Qed.

Lemma eventStep_exclusive sf total m stackTraceID count k :
  exclusiveOf k (eventStep sf (total, m) (stackTraceID, count)).2 =
    if decide (leafGroupOf (traceOf stackTraceID) = Some k)
    then (exclusiveOf k m + count * sf)%Q else exclusiveOf k m.
Proof. unfold eventStep. cbn [snd]. apply frames_exclusive. Qed.


(** ** The accumulator stays well formed *)

Lemma map_get_Some_elem_of {V} (m : list (string * V)) k v :
  map_get k m = Some v → (k, v) ∈ m.
Proof.
  induction m as [|[k' v'] m IH]; cbn [map_get]; [done|].
  case_decide as Hk.
  - intros [= ->]. subst. left.
  - intros ?. right. by apply IH.
Qed.

Lemma steppedEntry_FrameGroupID tr s m u i :
  Forall (λ ke, TopNFunctionAndFrameGroup.FrameGroupID ke.2 = ke.1) m →
  TopNFunctionAndFrameGroup.FrameGroupID (steppedEntry tr s m u i) =
    frameGroupIDAt tr i.
Proof.
  intros Hm. unfold steppedEntry.
  assert (TopNFunctionAndFrameGroup.FrameGroupID
            (default (newTopNFunction tr i) (map_get (frameGroupIDAt tr i) m))
          = frameGroupIDAt tr i) as He0.
  { destruct (map_get (frameGroupIDAt tr i) m) as [e|] eqn:Hget; [|done].
    apply map_get_Some_elem_of in Hget.
    rewrite Forall_forall in Hm. apply (Hm _ Hget). }
  destruct (decide (_ ∈ u)), (_ =? _); exact He0.
Qed.

Lemma frameStep_wellFormed tr s m u i :
  wellFormed m → wellFormed (frameStep tr s (m, u) i).1.
Proof.
  intros [Hnd Hkeys]. rewrite frameStep_unfold. cbn [fst].
  assert (wellFormed
            (if map_get (frameGroupIDAt tr i) m is Some _ then m
             else map_set (frameGroupIDAt tr i) (newTopNFunction tr i) m))
    as [Hnd0 Hkeys0].
  { destruct (map_get (frameGroupIDAt tr i) m); [by split|].
    split; [by apply map_set_NoDup|].
    apply Forall_forall. intros [k e] [[-> ->]|Hin]%map_set_elem_of; [done|].
    rewrite Forall_forall in Hkeys. apply (Hkeys _ Hin). }
  split; [by apply map_set_NoDup|].
  apply Forall_forall. intros [k e] [[-> ->]|Hin]%map_set_elem_of.
  - by apply steppedEntry_FrameGroupID.
  - rewrite Forall_forall in Hkeys0. apply (Hkeys0 _ Hin).
Qed.

Lemma frames_wellFormed tr s (positions : list nat) m u :
  wellFormed m → wellFormed (fold_left (frameStep tr s) positions (m, u)).1.
Proof.
  revert m u. induction positions as [|i positions IH]; intros m u Hm; [done|].
  cbn [fold_left]. destruct (frameStep tr s (m, u) i) as [m1 u1] eqn:E.
  apply IH. pose proof (frameStep_wellFormed tr s m u i Hm) as Hwf.
  by rewrite E in Hwf.
Qed.

Lemma eventStep_wellFormed sf (st : Q * Accumulator) event :
  wellFormed st.2 → wellFormed (eventStep sf st event).2.
Proof.
  destruct st as [total m], event as [stackTraceID count]. cbn [snd].
  apply frames_wellFormed.
Qed.

Lemma events_wellFormed sf events (st : Q * Accumulator) :
  wellFormed st.2 → wellFormed (fold_left (eventStep sf) events st).2.
Proof.
  revert st. induction events as [|event events IH]; intros st Hst; [done|].
  cbn [fold_left]. by apply IH, eventStep_wellFormed.
Qed.

Lemma accumulate_wellFormed samplingRate events :
  wellFormed (accumulate samplingRate events).2.
Proof.
  apply events_wellFormed. split; [apply NoDup_nil_2|apply Forall_nil_2].
Qed.

Lemma wellFormed_values_keys m :
  Forall (λ ke, TopNFunctionAndFrameGroup.FrameGroupID ke.2 = ke.1) m →
  TopNFunctionAndFrameGroup.FrameGroupID <$> map_values m = m.*1.
Proof.
  unfold map_values. induction 1 as [|[k e] m Hke _ IH]; [done|].
  cbn in Hke. rewrite !fmap_cons. cbn [fst snd]. by rewrite Hke, IH.
Qed.

(** The values handed to [sort] carry pairwise distinct [FrameGroupID]s. *)
Lemma accumulate_values_NoDup samplingRate events :
  NoDup (TopNFunctionAndFrameGroup.FrameGroupID <$>
           map_values (accumulate samplingRate events).2).
Proof.
  destruct (accumulate_wellFormed samplingRate events) as [Hnd Hkeys].
  by rewrite wellFormed_values_keys.
Qed.

(** ** The running total *)

Lemma createTopNFunctions_TotalCount endIndex events samplingRate startIndex
    totalSeconds :
  TopNFunctions.TotalCount
    (createTopNFunctions endIndex events samplingRate startIndex totalSeconds) =
  (accumulate samplingRate events).1.
Proof.
  unfold createTopNFunctions.
  by destruct (accumulate samplingRate events).
Qed.

(** ** Counting: the scenarios of the specification *)

(** C1.  One stack trace [T1] with three pairwise distinct frame groups
    [a, b, c] ([c] at the last index), [events = {T1: 10}] and
    [samplingRate = 1]: the accumulator holds [CountInclusive = 10] for each
    of the three groups, [CountExclusive = 10] for [c] and [0] for [a] and
    [b], and the result has [TotalCount = 10].  In general an iteration of
    the inner loop adds the scaled count to the exclusive count of the frame
    group of its position exactly when the position is the last one of the
    trace, and leaves every other exclusive count as it is. *)
Theorem single_trace_counts (T1 : StackTraceID) tr (a b c : FrameGroupID)
    (endIndex startIndex : Z) (totalSeconds : Q) :
  stackTraces !! T1 = Some tr →
  frameGroupsOf tr = [a; b; c] →
  a ≠ b → a ≠ c → b ≠ c →
  let topNFunctions := (accumulate 1 [(T1, 10%Q)]).2 in
  (inclusiveOf a topNFunctions == 10 ∧ inclusiveOf b topNFunctions == 10 ∧
   inclusiveOf c topNFunctions == 10)%Q ∧
  (exclusiveOf c topNFunctions == 10 ∧ exclusiveOf a topNFunctions == 0 ∧
   exclusiveOf b topNFunctions == 0)%Q ∧
  (TopNFunctions.TotalCount
     (createTopNFunctions endIndex [(T1, 10%Q)] 1 startIndex totalSeconds) == 10)%Q ∧
  (∀ stackTrace scaledCount m u i k,
     exclusiveOf k (frameStep stackTrace scaledCount (m, u) i).1 =
       if decide (k = frameGroupIDAt stackTrace i ∧
                  Z.of_nat i = Z.of_nat (length (StackTrace.FrameIDs stackTrace)) - 1)
       then (exclusiveOf k m + scaledCount)%Q else exclusiveOf k m).
Proof.
  intros HT1 Hgroups Hab Hac Hbc topNFunctions.
  assert (leafGroupOf tr = Some c) as Hleaf.
  { unfold leafGroupOf. by rewrite Hgroups. }
  subst topNFunctions. unfold accumulate. cbn [fold_left].
  rewrite createTopNFunctions_TotalCount.
  unfold accumulate. cbn [fold_left].
  rewrite !eventStep_inclusive, !eventStep_exclusive, eventStep_total.
  rewrite HT1. cbn [from_option id]. rewrite Hgroups, Hleaf.
  split_and!.
  - rewrite decide_True by (rewrite !elem_of_cons; auto). reflexivity.
  - rewrite decide_True by (rewrite !elem_of_cons; auto). reflexivity.
  - rewrite decide_True by (rewrite !elem_of_cons; auto). reflexivity.
  - rewrite decide_True by done. reflexivity.
  - rewrite decide_False by congruence. reflexivity.
  - rewrite decide_False by congruence. reflexivity.
  - reflexivity.
  - intros. apply frameStep_exclusive.
Qed.

(** C2.  Processing one entry of [events] adds its scaled count to the
    inclusive count of a frame group once when the group occurs in the
    trace, at one position or at several, and not at all otherwise.  With
    one trace whose frame groups are [a, a, b] and [events = {T1: 5}],
    [samplingRate = 1], the inclusive count of [a] is [5], not [10]. *)
Theorem inclusive_once_per_event (T1 : StackTraceID) tr (a b : FrameGroupID) :
  stackTraces !! T1 = Some tr →
  frameGroupsOf tr = [a; a; b] →
  a ≠ b →
  (∀ scalingFactor totalCount m stackTraceID count k,
     inclusiveOf k
       (eventStep scalingFactor (totalCount, m) (stackTraceID, count)).2 =
       if decide (k ∈ frameGroupsOf
                        (default emptyStackTrace (stackTraces !! stackTraceID)))
       then (inclusiveOf k m + count * scalingFactor)%Q else inclusiveOf k m) ∧
  (inclusiveOf a (accumulate 1 [(T1, 5%Q)]).2 == 5)%Q ∧
  ¬ (inclusiveOf a (accumulate 1 [(T1, 5%Q)]).2 == 10)%Q ∧
  (inclusiveOf b (accumulate 1 [(T1, 5%Q)]).2 == 5)%Q ∧
  (exclusiveOf b (accumulate 1 [(T1, 5%Q)]).2 == 5)%Q.
Proof.
  intros HT1 Hgroups Hab.
  assert (leafGroupOf tr = Some b) as Hleaf.
  { unfold leafGroupOf. by rewrite Hgroups. }
  split; [intros; apply eventStep_inclusive|].
  unfold accumulate. cbn [fold_left].
  rewrite !eventStep_inclusive, eventStep_exclusive.
  rewrite HT1. cbn [from_option id]. rewrite Hgroups, Hleaf.
  rewrite !decide_True; [|done|rewrite !elem_of_cons; auto..].
  split_and!; try reflexivity. intros Heq. discriminate Heq.
Qed.

(** ** Ordering of the counts *)




(** The invariant of the outer loop, read through the two observers. *)
Local Abbreviation ordered st :=
  ((0 <= st.1)%Q ∧
   ∀ k, (0 <= exclusiveOf k st.2)%Q ∧
        (exclusiveOf k st.2 <= inclusiveOf k st.2)%Q ∧
        (inclusiveOf k st.2 <= st.1)%Q).




(** ** The returned rows *)

Lemma createTopNFunctions_TopN endIndex events samplingRate startIndex
    totalSeconds :
  let ranked := rankTopN (map_values (accumulate samplingRate events).2) in
  let total := Z.of_nat (length ranked) in
  TopNFunctions.TopN
    (createTopNFunctions endIndex events samplingRate startIndex totalSeconds) =
  imap (toTopNFunction (accumulate samplingRate events).1 totalSeconds)
    (js_slice ranked (Z.min startIndex total) (Z.min endIndex total)).
Proof.
  intros ranked total. unfold createTopNFunctions.
  subst ranked total. destruct (accumulate samplingRate events) as [totalCount m].
  cbn [TopNFunctions.TopN fst snd].
  set (n := Z.of_nat (length (rankTopN (map_values m)))).
  replace (if n <? startIndex then n else startIndex) with (Z.min startIndex n)
    by (destruct (Z.ltb_spec n startIndex); lia).
  replace (if n <? endIndex then n else endIndex) with (Z.min endIndex n)
    by (destruct (Z.ltb_spec n endIndex); lia).
  done.
Qed.

Lemma createTopNFunctions_impactEstimates endIndex events samplingRate
    startIndex totalSeconds :
  let result :=
    createTopNFunctions endIndex events samplingRate startIndex totalSeconds in
  TopNFunctions.impactEstimates result =
    if Qgtb totalSeconds 0
    then Some (calculateImpactEstimates
                 (sumBy (TopNFunctions.TopN result) TopNFunction.CountExclusive)
                 (sumBy (TopNFunctions.TopN result) TopNFunction.CountInclusive)
                 (TopNFunctions.TotalCount result) totalSeconds)
    else None.
Proof.
  unfold createTopNFunctions.
  by destruct (accumulate samplingRate events) as [totalCount m].
Qed.

Lemma rankTopN_elem_of (topN : list TopNFunctionAndFrameGroup.t) e :
  e ∈ rankTopN topN ↔ e ∈ topN.
Proof.
  unfold rankTopN. by rewrite elem_of_reverse, js_sort_Permutation.
Qed.

Lemma rankTopN_length (topN : list TopNFunctionAndFrameGroup.t) :
  length (rankTopN topN) = length topN.
Proof.
  unfold rankTopN. by rewrite length_reverse, js_sort_length.
Qed.

(** Every returned row is built from an entry of the accumulator. *)
Lemma TopN_row_entry endIndex events samplingRate startIndex totalSeconds row :
  row ∈ TopNFunctions.TopN
          (createTopNFunctions endIndex events samplingRate startIndex totalSeconds) →
  ∃ j k e,
    (k, e) ∈ (accumulate samplingRate events).2 ∧
    row = toTopNFunction (accumulate samplingRate events).1 totalSeconds j e.
Proof.
  rewrite createTopNFunctions_TopN. cbv zeta.
  intros (j & e & -> & Hj)%elem_of_lookup_imap.
  apply list_elem_of_lookup_2, js_slice_elem_of in Hj.
  apply (proj1 (rankTopN_elem_of _ _)) in Hj.
  unfold map_values in Hj. apply list_elem_of_fmap in Hj as ([k e'] & -> & Hin).
  by exists j, k, e'.
Qed.


(** ** Pagination *)

(** C5.  [startIndex] and [endIndex] are each replaced by the number of
    ranked entries when greater and are otherwise left as they are; [TopN]
    is the [slice] of the ranked sequence between the two, row by row, and
    the [Rank] of a row is its position in [TopN] plus one.  When
    [startIndex] is at least the number of entries, as with 5 entries and
    the window [10, 20), [TopN] is empty; so it is when the clamped
    [endIndex] does not exceed the clamped [startIndex]. *)
Theorem pagination_clamp (endIndex : Z) (events : list (StackTraceID * Q))
    (samplingRate : Q) (startIndex : Z) (totalSeconds : Q) :
  let result :=
    createTopNFunctions endIndex events samplingRate startIndex totalSeconds in
  let ranked := rankTopN (map_values (accumulate samplingRate events).2) in
  let total := Z.of_nat (length ranked) in
  let startIndex' := if total <? startIndex then total else startIndex in
  let endIndex' := if total <? endIndex then total else endIndex in
  TopNFunctions.TopN result =
    imap (toTopNFunction (TopNFunctions.TotalCount result) totalSeconds)
      (js_slice ranked startIndex' endIndex') ∧
  (∀ j row, TopNFunctions.TopN result !! j = Some row →
     TopNFunction.Rank row = Z.of_nat j + 1) ∧
  (0 <= startIndex →
   ∀ j row, TopNFunctions.TopN result !! j = Some row →
     ∃ e, ranked !! (Z.to_nat startIndex' + j)%nat = Some e ∧
          TopNFunction.Id row = TopNFunctionAndFrameGroup.FrameGroupID e ∧
          TopNFunction.CountExclusive row = TopNFunctionAndFrameGroup.CountExclusive e ∧
          TopNFunction.CountInclusive row = TopNFunctionAndFrameGroup.CountInclusive e) ∧
  (0 <= startIndex → 0 <= endIndex →
   Z.of_nat (length (TopNFunctions.TopN result)) = Z.max (endIndex' - startIndex') 0) ∧
  (total <= startIndex → TopNFunctions.TopN result = []) ∧
  (total = 5 → startIndex = 10 → endIndex = 20 →
   startIndex' = 5 ∧ endIndex' = 5 ∧ TopNFunctions.TopN result = []) ∧
  (0 <= startIndex → 0 <= endIndex → endIndex' <= startIndex' →
   TopNFunctions.TopN result = []).
Proof.
  intros result ranked total startIndex' endIndex'.
  assert (startIndex' = Z.min startIndex total) as Hs
    by (subst startIndex'; destruct (Z.ltb_spec total startIndex); lia).
  assert (endIndex' = Z.min endIndex total) as He
    by (subst endIndex'; destruct (Z.ltb_spec total endIndex); lia).
  assert (TopNFunctions.TopN result =
            imap (toTopNFunction (TopNFunctions.TotalCount result) totalSeconds)
              (js_slice ranked startIndex' endIndex')) as HTopN.
  { subst result. rewrite createTopNFunctions_TotalCount, Hs, He.
    apply createTopNFunctions_TopN. }
  assert (0 <= startIndex →
          slice_index (Z.of_nat (length ranked)) startIndex' = startIndex') as Hsi.
  { intros ?. unfold slice_index. fold total.
    destruct (Z.ltb_spec startIndex' 0); lia. }
  assert (0 <= endIndex →
          slice_index (Z.of_nat (length ranked)) endIndex' = endIndex') as Hei.
  { intros ?. unfold slice_index. fold total.
    destruct (Z.ltb_spec endIndex' 0); lia. }
  assert (0 <= startIndex → 0 <= endIndex →
          Z.of_nat (length (TopNFunctions.TopN result)) =
            Z.max (endIndex' - startIndex') 0) as Hlen.
  { intros ??. rewrite HTopN, length_imap, js_slice_length, Hsi, Hei; done. }
  split_and!.
  - exact HTopN.
  - intros j row. rewrite HTopN, list_lookup_imap.
    destruct (js_slice ranked startIndex' endIndex' !! j); [|done].
    by intros [= <-].
  - intros Hstart j row. rewrite HTopN, list_lookup_imap.
    destruct (js_slice ranked startIndex' endIndex' !! j) as [e|] eqn:Hj; [|done].
    intros [= <-]. apply js_slice_lookup in Hj as [Hj Hlt].
    rewrite Hsi in Hj by done. by exists e.
  - exact Hlen.
  - intros Hpast. rewrite HTopN.
    rewrite js_slice_past_end; [done|]. fold total. lia.
  - intros Htotal -> ->. rewrite Hs, He, HTopN.
    split_and!; [lia..|]. rewrite js_slice_past_end; [done|]. fold total. lia.
  - intros ?? Hle. apply length_zero_iff_nil.
    specialize (Hlen ltac:(done) ltac:(done)). lia.
Qed.

(** ** Impact estimates *)

Lemma Qgtb_false_iff (a b : Q) : Qgtb a b = false ↔ (a <= b)%Q.
Proof.
  unfold Qgtb. rewrite Qle_alt. destruct (a ?= b)%Q; split; congruence.
Qed.

Lemma Qgtb_true_iff (a b : Q) : Qgtb a b = true ↔ (b < a)%Q.
Proof.
  unfold Qgtb. rewrite (Qgt_alt a b). destruct (a ?= b)%Q; split; congruence.
Qed.

(** C6.  When [totalSeconds <= 0] no returned row and not the result itself
    carries impact estimates; when [totalSeconds > 0] every row carries those
    [calculateImpactEstimates] computes from its two counts, the total and
    [totalSeconds], and the result carries those computed from the two sums
    over the returned rows. *)
Theorem impact_estimates_gated (endIndex : Z) (events : list (StackTraceID * Q))
    (samplingRate : Q) (startIndex : Z) (totalSeconds : Q) :
  let result :=
    createTopNFunctions endIndex events samplingRate startIndex totalSeconds in
  ((totalSeconds <= 0)%Q →
   TopNFunctions.impactEstimates result = None ∧
   Forall (λ row, TopNFunction.impactEstimates row = None)
     (TopNFunctions.TopN result)) ∧
  ((0 < totalSeconds)%Q →
   TopNFunctions.impactEstimates result =
     Some (calculateImpactEstimates
             (sumBy (TopNFunctions.TopN result) TopNFunction.CountExclusive)
             (sumBy (TopNFunctions.TopN result) TopNFunction.CountInclusive)
             (TopNFunctions.TotalCount result) totalSeconds) ∧
   Forall (λ row,
             TopNFunction.impactEstimates row =
               Some (calculateImpactEstimates
                       (TopNFunction.CountExclusive row)
                       (TopNFunction.CountInclusive row)
                       (TopNFunctions.TotalCount result) totalSeconds))
     (TopNFunctions.TopN result)).
Proof.
  intros result. split.
  - intros Hle%Qgtb_false_iff. split.
    + subst result. by rewrite createTopNFunctions_impactEstimates, Hle.
    + apply Forall_forall. intros row Hrow.
      apply TopN_row_entry in Hrow as (j & k & e & _ & ->).
      cbn [toTopNFunction TopNFunction.impactEstimates]. by rewrite Hle.
  - intros Hlt%Qgtb_true_iff. split.
    + subst result. by rewrite createTopNFunctions_impactEstimates, Hlt.
    + apply Forall_forall. intros row Hrow.
      apply TopN_row_entry in Hrow as (j & k & e & _ & ->).
      subst result. rewrite createTopNFunctions_TotalCount.
      cbn [toTopNFunction TopNFunction.impactEstimates
             TopNFunction.CountExclusive TopNFunction.CountInclusive].
      by rewrite Hlt.
Qed.

(** ** The ranking order *)

Lemma localeCompare_le (a b : string) : localeCompare a b <= 0 ↔ String.le a b.
Proof.
  unfold localeCompare, String.le, String.leb.
  destruct (String.compare a b); cbn; split; (done || lia).
Qed.

Lemma compareTopN_before (a b : TopNFunctionAndFrameGroup.t) :
  compareTopN a b <= 0 ↔
    (TopNFunctionAndFrameGroup.CountExclusive a <
       TopNFunctionAndFrameGroup.CountExclusive b)%Q ∨
    ((TopNFunctionAndFrameGroup.CountExclusive a ==
        TopNFunctionAndFrameGroup.CountExclusive b)%Q ∧
     String.le (TopNFunctionAndFrameGroup.FrameGroupID a)
               (TopNFunctionAndFrameGroup.FrameGroupID b)).
Proof.
  unfold compareTopN, Qgtb, Qltb. rewrite Qlt_alt, Qeq_alt.
  destruct (_ ?= _)%Q.
  - rewrite localeCompare_le. split; [by right|]. by intros [?|[_ ?]].
  - split; [by left|lia].
  - split; [lia|]. by intros [?|[? _]].
Qed.

Lemma compareTopNDescending_flip (a b : TopNFunctionAndFrameGroup.t) :
  compareTopNDescending a b = compareTopN b a.
Proof.
  unfold compareTopNDescending, compareTopN, Qgtb, Qltb.
  rewrite <- (Qcompare_antisym (TopNFunctionAndFrameGroup.CountExclusive a)
                (TopNFunctionAndFrameGroup.CountExclusive b)).
  by destruct (_ ?= _)%Q.
Qed.

Lemma compareTopN_total (a b : TopNFunctionAndFrameGroup.t) :
  0 < compareTopN a b → compareTopN b a <= 0.
Proof.
  unfold compareTopN, Qgtb, Qltb, localeCompare.
  rewrite <- (Qcompare_antisym (TopNFunctionAndFrameGroup.CountExclusive a)
                (TopNFunctionAndFrameGroup.CountExclusive b)).
  rewrite (String.compare_antisym (TopNFunctionAndFrameGroup.FrameGroupID b)).
  destruct (_ ?= _)%Q; cbn; try lia.
  destruct (String.compare _ _); cbn; lia.
Qed.

Lemma compareTopN_transitive :
  Transitive (λ a b : TopNFunctionAndFrameGroup.t, compareTopN a b <= 0).
Proof.
  intros a b c. rewrite !compareTopN_before.
  intros [Hab|[Hab Hab']] [Hbc|[Hbc Hbc']].
  - left. by eapply Qlt_trans.
  - left. by rewrite <- Hbc.
  - left. by rewrite Hab.
  - right. split; [by rewrite Hab|]. by etrans.
Qed.

Lemma compareTopN_antisym (a b : TopNFunctionAndFrameGroup.t) :
  compareTopN a b <= 0 → compareTopN b a <= 0 →
  TopNFunctionAndFrameGroup.FrameGroupID a = TopNFunctionAndFrameGroup.FrameGroupID b.
Proof.
  rewrite !compareTopN_before.
  intros [Hab|[Hab Hab']] [Hba|[Hba Hba']].
  - exfalso. apply (Qlt_irrefl (TopNFunctionAndFrameGroup.CountExclusive a)).
    by eapply Qlt_trans.
  - exfalso. rewrite Hba in Hab. by apply Qlt_irrefl in Hab.
  - exfalso. rewrite Hab in Hba. by apply Qlt_irrefl in Hba.
  - by apply (anti_symm String.le).
Qed.

Lemma NoDup_fmap_elem_of {A B} (f : A → B) (l : list A) x y :
  NoDup (f <$> l) → x ∈ l → y ∈ l → f x = f y → x = y.
Proof.
  induction l as [|z l IH]; [by intros _ ?%elem_of_nil|].
  rewrite fmap_cons, NoDup_cons.
  intros [Hz Hnd] [->|Hx]%elem_of_cons [->|Hy]%elem_of_cons Hf.
  - done.
  - exfalso. apply Hz. rewrite Hf. by apply list_elem_of_fmap_2.
  - exfalso. apply Hz. rewrite <- Hf. by apply list_elem_of_fmap_2.
  - by apply IH.
Qed.

(** C4.  On entries with pairwise distinct [FrameGroupID]s, sorting
    ascending by exclusive count with ties broken by ascending
    [FrameGroupID] and then reversing yields the sequence that a single
    sort yields with the comparator that is descending by exclusive count
    with ties broken by descending [FrameGroupID]. *)
Theorem ascending_then_reverse_is_descending
    (topN : list TopNFunctionAndFrameGroup.t) :
  NoDup (TopNFunctionAndFrameGroup.FrameGroupID <$> topN) →
  rankTopN topN = rankTopNDescending topN.
Proof.
  intros Hnd. unfold rankTopN, rankTopNDescending.
  rewrite (js_sort_ext compareTopNDescending (λ a b, compareTopN b a))
    by apply compareTopNDescending_flip.
  pose proof compareTopN_transitive as Htrans.
  apply (StronglySorted_unique_strong
           (flip (λ a b : TopNFunctionAndFrameGroup.t, compareTopN a b <= 0))).
  - intros x1 x2 Hx1 Hx2 H12 H21.
    rewrite elem_of_reverse, js_sort_Permutation in Hx1.
    rewrite js_sort_Permutation in Hx2.
    apply (NoDup_fmap_elem_of TopNFunctionAndFrameGroup.FrameGroupID topN);
      [done..|].
    by apply compareTopN_antisym.
  - apply Sorted_StronglySorted; [apply _|].
    apply Sorted_reverse, js_sort_Sorted, compareTopN_total.
  - apply Sorted_StronglySorted; [apply _|].
    apply (js_sort_Sorted (λ a b, compareTopN b a)).
    intros x y. apply compareTopN_total.
  - by rewrite reverse_Permutation, !js_sort_Permutation.
Qed.
End TopNFacts.

(** ** [POST /api/watcher/fields] *)

Section WatcherFacts.
Variable Thrown : Type.
Variable statusCode : Thrown → Z.
Variable message : Thrown → string.
Variable isEsError : Thrown → bool.
Variable Fields : Type.
Variable fromUpstreamJson : Json → Fields.
Variable downstreamJson : Fields → Json.
Variable callAsCurrentUser :
  string → FieldCapsParams.t → Thrown + list (string * Json).

Local Abbreviation fetchFields := (fetchFields Thrown callAsCurrentUser).
Local Abbreviation listFieldsHandler :=
  (listFieldsHandler Thrown statusCode message isEsError
     Fields fromUpstreamJson downstreamJson callAsCurrentUser).

(** C7.  When the field-capabilities call succeeds the handler responds
    200: with the downstream rendering of the [Fields] model built from
    [{ fields: [] }] if the status of the cluster response is 404, and with
    the one built from the cluster response itself otherwise. *)
Theorem list_fields_success (indexes : list string)
    (fieldsResponse : list (string * Json)) :
  fetchFields indexes = inr fieldsResponse →
  (map_get "status" fieldsResponse = Some (JNumber 404) →
   listFieldsHandler indexes =
     Responded (ResponseOk
       (downstreamJson (fromUpstreamJson (JObject [("fields", JArray [])]))))) ∧
  (map_get "status" fieldsResponse ≠ Some (JNumber 404) →
   listFieldsHandler indexes =
     Responded (ResponseOk
       (downstreamJson (fromUpstreamJson (JObject fieldsResponse))))) ∧
  (∃ r, listFieldsHandler indexes = Responded r ∧ responseStatus r = 200).
Proof.
  intros Hfetch. unfold listFieldsHandler. rewrite Hfetch.
  split_and!.
  - intros Hstatus. unfold statusIs404. by rewrite Hstatus.
  - intros Hstatus. unfold statusIs404.
    destruct (map_get "status" fieldsResponse) as [[| |n| | |]|]; try done.
    destruct n as [|p|p]; try done.
    destruct (decide (p = 404%positive)) as [->|Hp]; [done|].
    repeat (destruct p as [p|p|]; try done).
  - eexists. split; [reflexivity|]. reflexivity.
Qed.

(** C8.  When the field-capabilities call throws, the handler responds with
    the status code of the error and the body [{ message }] if [isEsError]
    recognises the error, and rethrows it otherwise. *)
Theorem list_fields_error (indexes : list string) (e : Thrown) :
  fetchFields indexes = inl e →
  (isEsError e = true →
   listFieldsHandler indexes =
     Responded (ResponseCustomError (statusCode e)
                  (JObject [("message", JString (message e))])) ∧
   ∀ r, listFieldsHandler indexes = Responded r →
        responseStatus r = statusCode e) ∧
  (isEsError e = false → listFieldsHandler indexes = Rethrown e).
Proof.
  intros Hfetch. unfold listFieldsHandler. rewrite Hfetch. split.
  - intros ->. split; [done|]. by intros r [= <-].
  - by intros ->.
Qed.
End WatcherFacts.

(** ** The [loadWorkpad] route *)

Section WorkpadFacts.
Variable State : Type.
Variable getWorkpad : State → Workpad.t.
Variable reduce : State → Action → State.
Variable workpadService_get : string → option FetchedWorkpad.t.

Local Abbreviation loadWorkpad :=
  (loadWorkpad State getWorkpad reduce workpadService_get).

(** C9.  When the current workpad has the requested id: a page parameter
    that does not parse as an integer, an absent one in particular, makes the
    action redirect to [loadWorkpad] with the id of the current workpad and
    its page index plus one, and dispatch nothing; a page parameter that
    parses makes it dispatch [gotoPage (page - 1)] when [page - 1] differs
    from the current page index, and do nothing when they are equal. *)
Theorem load_workpad_page (st : State) (params : RouteParams.t) :
  RouteParams.id params = Workpad.id (getWorkpad st) →
  let workpad := getWorkpad st in
  (parseInt (RouteParams.page params) = None →
   loadWorkpad st params =
     (st, [RedirectTo "loadWorkpad"
             (Some (Workpad.id workpad, Workpad.page workpad + 1))])) ∧
  (RouteParams.page params = None → parseInt (RouteParams.page params) = None) ∧
  (∀ pageNumber, parseInt (RouteParams.page params) = Some pageNumber →
     pageNumber - 1 ≠ Workpad.page workpad →
     loadWorkpad st params =
       (reduce st (gotoPage (pageNumber - 1)),
        [Dispatch (gotoPage (pageNumber - 1))])) ∧
  (∀ pageNumber, parseInt (RouteParams.page params) = Some pageNumber →
     pageNumber - 1 = Workpad.page workpad →
     loadWorkpad st params = (st, [])).
Proof.
  intros Hid workpad. unfold loadWorkpad.
  rewrite decide_False by (by intros ?).
  unfold loadWorkpadPage. fold workpad. split_and!.
  - by intros ->.
  - by intros ->.
  - intros pageNumber -> Hne. by rewrite decide_True.
  - intros pageNumber -> Heq. by rewrite decide_False by (by intros ?).
Qed.
End WorkpadFacts.

(** ** The binary64 reading of the two loops *)

Section Binary64Facts.
Context `{ProfilingImports}.
Variable executables : gmap FileID Executable.t.
Variable stackFrames : gmap StackFrameID StackFrame.t.
Variable stackTraces : gmap StackTraceID StackTrace.t.

Local Abbreviation frameStep := (Binary64.frameStep executables stackFrames).
Local Abbreviation frameGroupIDAt := (frameGroupIDAt executables stackFrames).
Local Abbreviation newTopNFunction := (Binary64.newTopNFunction executables stackFrames).
Local Abbreviation steppedEntry := (Binary64.steppedEntry executables stackFrames).
Local Abbreviation frameGroupsOf := (frameGroupsOf executables stackFrames).
Local Abbreviation leafGroupOf := (leafGroupOf executables stackFrames).
Local Abbreviation eventStep := (Binary64.eventStep executables stackFrames stackTraces).
Local Abbreviation accumulate := (Binary64.accumulate executables stackFrames stackTraces).
Local Abbreviation TotalCount := (Binary64.TotalCount executables stackFrames stackTraces).
Local Abbreviation exclusiveOf := Binary64.exclusiveOf.
Local Abbreviation inclusiveOf := Binary64.inclusiveOf.
Local Abbreviation addInclusive := Binary64.addInclusive.
Local Abbreviation addExclusive := Binary64.addExclusive.
Local Abbreviation traceOf stackTraceID :=
  (default emptyStackTrace (stackTraces !! stackTraceID)).

Implicit Types (m : list (FrameGroupID * Binary64.TopNFunctionAndFrameGroup)).
Implicit Types (u : gset FrameGroupID) (k : FrameGroupID).
Implicit Types (tr : StackTrace.t) (s : float) (i : nat).

Lemma frameStep_unfold_binary64 tr s m u i :
  frameStep tr s (m, u) i =
    (map_set (frameGroupIDAt tr i) (steppedEntry tr s m u i)
       (if map_get (frameGroupIDAt tr i) m is Some _ then m
        else map_set (frameGroupIDAt tr i) (newTopNFunction tr i) m),
     {[frameGroupIDAt tr i]} ∪ u).
Proof.
  unfold frameStep, steppedEntry.
  destruct (map_get _ m) as [e|] eqn:Hget; simpl;
    destruct (decide (_ ∈ u)) as [Hin|Hin]; simpl;
    f_equal; try reflexivity;
    symmetry; by apply subseteq_union_1_L, singleton_subseteq_l.
Qed.

Lemma frameStep_get_binary64 tr s m u i k :
  map_get k (frameStep tr s (m, u) i).1 =
    if decide (k = frameGroupIDAt tr i) then Some (steppedEntry tr s m u i)
    else map_get k m.
Proof.
  rewrite frameStep_unfold_binary64. cbn [fst]. rewrite map_get_set.
  case_decide as Hk; [done|].
  destruct (map_get (frameGroupIDAt tr i) m); [done|].
  by rewrite map_get_set, decide_False.
Qed.

Lemma frameStep_seen_binary64 tr s m u i :
  (frameStep tr s (m, u) i).2 = {[frameGroupIDAt tr i]} ∪ u.
Proof. by rewrite frameStep_unfold_binary64. Qed.

(** The exclusive count moves only at the last position, and only for the
    frame group found there. *)
Lemma frameStep_exclusive_binary64 tr s m u i k :
  exclusiveOf k (frameStep tr s (m, u) i).1 =
    if decide (k = frameGroupIDAt tr i ∧
               Z.of_nat i = Z.of_nat (length (StackTrace.FrameIDs tr)) - 1)
    then (exclusiveOf k m + s)%float else exclusiveOf k m.
Proof.
  unfold exclusiveOf. rewrite frameStep_get_binary64.
  destruct (decide (k = frameGroupIDAt tr i)) as [->|Hk].
  - unfold steppedEntry. cbn [from_option].
    destruct (Z.eqb_spec (Z.of_nat i) (Z.of_nat (length (StackTrace.FrameIDs tr)) - 1))
      as [Hi|Hi].
    + destruct (map_get (frameGroupIDAt tr i) m);
        destruct (decide (frameGroupIDAt tr i ∈ u));
        rewrite decide_True by (split; [reflexivity|exact Hi]); reflexivity.
    + destruct (map_get (frameGroupIDAt tr i) m);
        destruct (decide (frameGroupIDAt tr i ∈ u));
        rewrite decide_False by (by intros [_ ?]); reflexivity.
  - rewrite decide_False by (by intros [? _]). done.
Qed.

(** The inclusive count moves only for the frame group of the position,
    and only when the event has not met that group before. *)
Lemma frameStep_inclusive_binary64 tr s m u i k :
  inclusiveOf k (frameStep tr s (m, u) i).1 =
    if decide (k = frameGroupIDAt tr i ∧ k ∉ u)
    then (inclusiveOf k m + s)%float else inclusiveOf k m.
Proof.
  unfold inclusiveOf. rewrite frameStep_get_binary64.
  destruct (decide (k = frameGroupIDAt tr i)) as [->|Hk].
  - unfold steppedEntry. cbn [from_option].
    destruct (decide (frameGroupIDAt tr i ∈ u)) as [Hin|Hin].
    + rewrite (decide_False (P := _ ∧ _)) by (by intros [_ ?]).
      destruct (map_get (frameGroupIDAt tr i) m); destruct (_ =? _); reflexivity.
    + rewrite (decide_True (P := _ ∧ _)) by (split; [reflexivity|exact Hin]).
      destruct (map_get (frameGroupIDAt tr i) m); destruct (_ =? _); reflexivity.
  - rewrite decide_False by (by intros [? _]). done.
Qed.



Lemma frames_seen_binary64 tr s (positions : list nat) m u :
  (fold_left (frameStep tr s) positions (m, u)).2 =
    list_to_set (frameGroupIDAt tr <$> positions) ∪ u.
Proof.
  revert m u. induction positions as [|i positions IH]; intros m u.
  - simpl. by rewrite union_empty_l_L.
  - cbn [fold_left]. destruct (frameStep tr s (m, u) i) as [m1 u1] eqn:E.
    rewrite IH. pose proof (frameStep_seen_binary64 tr s m u i) as Hu.
    rewrite E in Hu. cbn [snd] in Hu. subst u1.
    rewrite fmap_cons, list_to_set_cons. by rewrite (assoc_L (∪)), (comm_L (∪) _ {[_]}).
Qed.

(** Deduplication: over the positions of one event the inclusive count of a
    frame group moves by [s] once if the group occurs at some position and
    was not met before, and does not move otherwise. *)
Lemma frames_inclusive_binary64 tr s (positions : list nat) m u k :
  inclusiveOf k (fold_left (frameStep tr s) positions (m, u)).1 =
    if decide (k ∈ (frameGroupIDAt tr <$> positions) ∧ k ∉ u)
    then (inclusiveOf k m + s)%float else inclusiveOf k m.
Proof.
  revert m u. induction positions as [|i positions IH]; intros m u.
  - cbn [fold_left fst]. rewrite decide_False; [done|].
    intros [Hin _]. by apply elem_of_nil in Hin.
  - cbn [fold_left]. destruct (frameStep tr s (m, u) i) as [m1 u1] eqn:E.
    rewrite IH.
    pose proof (frameStep_seen_binary64 tr s m u i) as Hu.
    pose proof (frameStep_inclusive_binary64 tr s m u i k) as Hk.
    rewrite E in Hu, Hk. cbn [fst snd] in Hu, Hk. subst u1. rewrite Hk.
    rewrite fmap_cons.
    destruct (decide (k = frameGroupIDAt tr i)) as [->|Hne].
    + rewrite (decide_False (P := _ ∧ _ ∉ _ ∪ _)).
      2:{ intros [_ Hnot]. apply Hnot, elem_of_union_l, elem_of_singleton. done. }
      destruct (decide (frameGroupIDAt tr i ∈ u)) as [Hin|Hin].
      * rewrite !decide_False; [done|by intros [_ ?]|by intros [_ ?]].
      * rewrite !decide_True; [done|split; [left|done]|by split].
    + rewrite (decide_False (P := k = _ ∧ _)) by (by intros [? _]).
      destruct (decide (k ∈ (frameGroupIDAt tr <$> positions) ∧ k ∉ u)) as [[Hin Hu]|Hn].
      * rewrite !decide_True; [done|split; [by right|done]|].
        split; [done|]. rewrite not_elem_of_union, not_elem_of_singleton. done.
      * rewrite !decide_False; [done| |].
        -- intros [[?|Hin]%elem_of_cons Hu]; [done|]. by apply Hn.
        -- intros [Hin Hu]. apply Hn. split; [done|].
           intros ?. apply Hu. by apply elem_of_union_r.
Qed.

Lemma frames_exclusive_unchanged_binary64 tr s (positions : list nat) m u k :
  Forall (λ i, Z.of_nat i ≠ Z.of_nat (length (StackTrace.FrameIDs tr)) - 1)
    positions →
  exclusiveOf k (fold_left (frameStep tr s) positions (m, u)).1 = exclusiveOf k m.
Proof.
  revert m u. induction positions as [|i positions IH]; intros m u Hall; [done|].
  apply Forall_cons in Hall as [Hi Hall].
  cbn [fold_left]. destruct (frameStep tr s (m, u) i) as [m1 u1] eqn:E.
  rewrite IH by done.
  pose proof (frameStep_exclusive_binary64 tr s m u i k) as Hk.
  rewrite E in Hk. cbn [fst] in Hk. rewrite Hk.
  rewrite decide_False; [done|]. by intros [_ ?].
Qed.

(** Over all the positions of a stack trace the exclusive count moves by
    [s] for the frame group at the last position and for no other. *)
Lemma frames_exclusive_binary64 tr s m u k :
  exclusiveOf k
    (fold_left (frameStep tr s) (seq 0 (length (StackTrace.FrameIDs tr))) (m, u)).1 =
    if decide (leafGroupOf tr = Some k)
    then (exclusiveOf k m + s)%float else exclusiveOf k m.
Proof.
  destruct (length (StackTrace.FrameIDs tr)) as [|n] eqn:Hlen.
  - rewrite leafGroupOf_nil by done. by rewrite decide_False.
  - rewrite (leafGroupOf_last _ _ tr n) by done.
    rewrite seq_S, fold_left_app. cbn [Nat.add fold_left].
    destruct (fold_left (frameStep tr s) (seq 0 n) (m, u)) as [m1 u1] eqn:E.
    assert (exclusiveOf k m1 = exclusiveOf k m) as Hpre.
    { pose proof (frames_exclusive_unchanged_binary64 tr s (seq 0 n) m u k) as Hun.
      rewrite E in Hun. apply Hun. apply Forall_forall. intros i Hi.
      apply elem_of_seq in Hi. rewrite Hlen. lia. }
    rewrite frameStep_exclusive_binary64, Hpre, Hlen.
    destruct (decide (k = frameGroupIDAt tr n)) as [->|Hne].
    + rewrite !decide_True; [done|done|split; [done|lia]].
    + rewrite !decide_False; [done|congruence|by intros [? _]].
Qed.



Lemma eventStep_total_binary64 sf total m stackTraceID count :
  (eventStep sf (total, m) (stackTraceID, count)).1 = (total + count * sf)%float.
Proof. reflexivity. Qed.

Lemma eventStep_inclusive_binary64 sf total m stackTraceID count k :
  inclusiveOf k (eventStep sf (total, m) (stackTraceID, count)).2 =
    if decide (k ∈ frameGroupsOf (traceOf stackTraceID))
    then (inclusiveOf k m + count * sf)%float else inclusiveOf k m.
Proof.
  unfold eventStep. cbn [snd]. rewrite frames_inclusive_binary64.
  unfold frameGroupsOf.
  destruct (decide (k ∈ _ <$> seq 0 _)) as [Hin|Hin].
  - rewrite decide_True; [done|]. split; [done|apply not_elem_of_empty].
  - rewrite decide_False; [done|]. by intros [? _].
Qed.

Lemma eventStep_exclusive_binary64 sf total m stackTraceID count k :
  exclusiveOf k (eventStep sf (total, m) (stackTraceID, count)).2 =
    if decide (leafGroupOf (traceOf stackTraceID) = Some k)
    then (exclusiveOf k m + count * sf)%float else exclusiveOf k m.
Proof. unfold eventStep. cbn [snd]. apply frames_exclusive_binary64. Qed.

Lemma events_total_binary64 sf (events : list (StackTraceID * float))
    (st : float * list (FrameGroupID * Binary64.TopNFunctionAndFrameGroup)) :
  (fold_left (eventStep sf) events st).1 =
    fold_left (λ total (event : StackTraceID * float), (total + event.2 * sf)%float)
      events st.1.
Proof.
  revert st. induction events as [|[stackTraceID count] events IH];
    intros [total m]; [done|].
  cbn [fold_left]. by rewrite IH.
Qed.

(** C3.  In the program's own binary64 arithmetic an entry of
    [events] contributes the product of its raw count and [1 / samplingRate],
    the reciprocal being computed, and rounded, once: that product is what is
    added to the running total, to the inclusive count of every frame group
    of the trace and to the exclusive count of the leaf group.  [TotalCount]
    is the sum of these products, added from left to right in the order of
    the events.  With [events = {T1: 3}] and [samplingRate = 0.5] nothing
    rounds: every contribution of [T1] is [6] and [TotalCount] is the
    quotient [3 / 0.5]. *)
Theorem counts_scaled_binary64 (samplingRate : float)
    (events : list (StackTraceID * float)) (T1 : StackTraceID) :
  (∀ totalCount m stackTraceID count,
     let scaledCount := (count * (1 / samplingRate))%float in
     let stackTrace := default emptyStackTrace (stackTraces !! stackTraceID) in
     let st := eventStep (1 / samplingRate) (totalCount, m) (stackTraceID, count) in
     st.1 = (totalCount + scaledCount)%float ∧
     ∀ k,
       inclusiveOf k st.2 =
         (if decide (k ∈ frameGroupsOf stackTrace)
          then (inclusiveOf k m + scaledCount)%float else inclusiveOf k m) ∧
       exclusiveOf k st.2 =
         (if decide (leafGroupOf stackTrace = Some k)
          then (exclusiveOf k m + scaledCount)%float else exclusiveOf k m)) ∧
  TotalCount samplingRate events =
    fold_left (λ total (event : StackTraceID * float),
                 (total + event.2 * (1 / samplingRate))%float)
      events 0%float ∧
  (let stackTrace := default emptyStackTrace (stackTraces !! T1) in
   let topNFunctions := (accumulate 0.5%float [(T1, 3%float)]).2 in
   TotalCount 0.5%float [(T1, 3%float)] = 6%float ∧
   TotalCount 0.5%float [(T1, 3%float)] = Binary64.sum [(3 / 0.5)%float] ∧
   ∀ k,
     inclusiveOf k topNFunctions =
       (if decide (k ∈ frameGroupsOf stackTrace) then 6%float else 0%float) ∧
     exclusiveOf k topNFunctions =
       (if decide (leafGroupOf stackTrace = Some k) then 6%float else 0%float)).
Proof.
  split_and!.
  - intros totalCount m stackTraceID count scaledCount stackTrace st.
    split; [reflexivity|]. intros k. split.
    + apply eventStep_inclusive_binary64.
    + apply eventStep_exclusive_binary64.
  - unfold Binary64.TotalCount, Binary64.accumulate. by rewrite events_total_binary64.
  - intros stackTrace topNFunctions. split_and!; [reflexivity..|].
    intros k. subst topNFunctions. unfold Binary64.accumulate. cbn [fold_left].
    rewrite eventStep_inclusive_binary64, eventStep_exclusive_binary64.
    fold stackTrace. split; case_decide; reflexivity.
Qed.
End Binary64Facts.

(** ** The statements on the sample inputs *)

Lemma single_trace_counts_witness :
  let topNFunctions :=
    (accumulate (H := sampleImports) ∅ ∅ {["T1" := traceABC]} 1 [("T1", 10%Q)]).2 in
  (inclusiveOf "A" topNFunctions == 10 ∧ inclusiveOf "B" topNFunctions == 10 ∧
   inclusiveOf "C" topNFunctions == 10)%Q ∧
  (exclusiveOf "C" topNFunctions == 10 ∧ exclusiveOf "A" topNFunctions == 0 ∧
   exclusiveOf "B" topNFunctions == 0)%Q ∧
  (TopNFunctions.TotalCount
     (createTopNFunctions (H := sampleImports) ∅ ∅ {["T1" := traceABC]}
        3 [("T1", 10%Q)] 1 0 0) == 10)%Q.
Proof.
  destruct (single_trace_counts (H := sampleImports) ∅ ∅ {["T1" := traceABC]}
              "T1" traceABC "A" "B" "C" 3 0 0%Q)
    as (Hinclusive & Hexclusive & Htotal & _).
  - vm_compute. reflexivity.
  - vm_compute. reflexivity.
  - discriminate.
  - discriminate.
  - discriminate.
  - exact (conj Hinclusive (conj Hexclusive Htotal)).
Defined.

Lemma inclusive_once_per_event_witness :
  (inclusiveOf "A"
     (accumulate (H := sampleImports) ∅ ∅ {["T1" := traceAAB]} 1 [("T1", 5%Q)]).2
   == 5)%Q.
Proof.
  destruct (inclusive_once_per_event (H := sampleImports) ∅ ∅
              {["T1" := traceAAB]} "T1" traceAAB "A" "B")
    as (_ & Hfive & _).
  - vm_compute. reflexivity.
  - vm_compute. reflexivity.
  - discriminate.
  - exact Hfive.
Defined.


Lemma ascending_then_reverse_is_descending_witness :
  let topN :=
    map_values (accumulate (H := sampleImports) ∅ ∅ fiveTraces 1 fiveEvents).2 in
  rankTopN topN = rankTopNDescending topN.
Proof.
  apply (ascending_then_reverse_is_descending (H := sampleImports)).
  apply (bool_decide_unpack _). vm_compute. exact I.
Defined.

Lemma pagination_clamp_witness :
  length (rankTopN
            (map_values
               (accumulate (H := sampleImports) ∅ ∅ fiveTraces 1 fiveEvents).2))
    = 5%nat ∧
  TopNFunctions.TopN
    (createTopNFunctions (H := sampleImports) ∅ ∅ fiveTraces 20 fiveEvents 1 10 0)
    = [].
Proof.
  split; [vm_compute; reflexivity|].
  destruct (pagination_clamp (H := sampleImports) ∅ ∅ fiveTraces
              20 fiveEvents 1 10 0%Q)
    as (_ & _ & _ & _ & Hpast & _).
  apply Hpast. vm_compute. discriminate.
Defined.

Lemma impact_estimates_gated_witness :
  Forall (λ row : @TopNFunction.t sampleImports, TopNFunction.impactEstimates row = None)
    (TopNFunctions.TopN
       (createTopNFunctions (H := sampleImports) ∅ ∅ fiveTraces 5 fiveEvents 1 0 0)) ∧
  Forall (λ row : @TopNFunction.t sampleImports,
            TopNFunction.impactEstimates row =
              Some (TopNFunction.CountExclusive row,
                    TopNFunction.CountInclusive row, 14%Q, 60%Q))
    (TopNFunctions.TopN
       (createTopNFunctions (H := sampleImports) ∅ ∅ fiveTraces 5 fiveEvents 1 0 60)).
Proof.
  split.
  - destruct (impact_estimates_gated (H := sampleImports) ∅ ∅ fiveTraces
                5 fiveEvents 1 0 0%Q) as [Hnone _].
    apply Hnone. discriminate.
  - destruct (impact_estimates_gated (H := sampleImports) ∅ ∅ fiveTraces
                5 fiveEvents 1 0 60%Q) as [_ Hsome].
    apply Hsome. reflexivity.
Defined.

Lemma list_fields_success_witness :
  sampleListFieldsHandler ["missing"] =
    Responded (ResponseOk (JObject [("fields", JArray [])])).
Proof.
  destruct (list_fields_success sampleThrown (λ e, e.1.1) (λ e, e.1.2) (λ e, e.2)
              Json (λ json, json) (λ fields, fields) sampleCallAsCurrentUser
              ["missing"] [("status", JNumber 404)])
    as (H404 & _).
  - reflexivity.
  - apply H404. reflexivity.
Defined.

Lemma list_fields_error_witness :
  sampleListFieldsHandler [] =
    Responded (ResponseCustomError 503
                 (JObject [("message", JString "cluster unavailable")])).
Proof.
  destruct (list_fields_error sampleThrown (λ e, e.1.1) (λ e, e.1.2) (λ e, e.2)
              Json (λ json, json) (λ fields, fields) sampleCallAsCurrentUser
              [] (503, "cluster unavailable", true))
    as ([Hes _] & _).
  - reflexivity.
  - reflexivity.
  - exact Hes.
Defined.

Lemma load_workpad_page_witness :
  sampleLoadWorkpad workpadW1 (RouteParams.mk "W1" None) =
    (workpadW1, [RedirectTo "loadWorkpad" (Some ("W1", 3))]).
Proof.
  destruct (load_workpad_page Workpad.t (λ st, st) sampleReduce (λ _, None)
              workpadW1 (RouteParams.mk "W1" None))
    as (Hredirect & _).
  - reflexivity.
  - apply Hredirect. reflexivity.
Defined.

(** ** Further checks on the sample inputs *)

(** The five sample entries, ranked: descending exclusive count, the tie
    between [B] and [D] broken with [D] first. *)
Example ranking_of_five :
  TopNFunctionAndFrameGroup.FrameGroupID <$>
    rankTopN (map_values
                (accumulate (H := sampleImports) ∅ ∅ fiveTraces 1 fiveEvents).2)
  = ["E"; "C"; "A"; "D"; "B"].
Proof. vm_compute. reflexivity. Qed.

(** A window inside the ranking: ranks restart at 1. *)
Example window_of_five :
  (λ row : @TopNFunction.t sampleImports, (TopNFunction.Rank row, TopNFunction.Id row)) <$>
    TopNFunctions.TopN
      (createTopNFunctions (H := sampleImports) ∅ ∅ fiveTraces 4 fiveEvents 1 2 0)
  = [(1, "A"); (2, "D")].
Proof. vm_compute. reflexivity. Qed.

(** A start index above the end index is left as it is: the slice is empty. *)
Example window_reversed :
  TopNFunctions.TopN
    (createTopNFunctions (H := sampleImports) ∅ ∅ fiveTraces 1 fiveEvents 1 3 0)
  = [].
Proof. vm_compute. reflexivity. Qed.

(** An unrecognised failure of the cluster client is rethrown. *)
Example list_fields_rethrows :
  sampleListFieldsHandler ["broken"] = Rethrown (500, "socket hang up", false).
Proof. reflexivity. Qed.

(** A page parameter that parses: the page is changed, or nothing happens. *)
Example load_workpad_goto :
  sampleLoadWorkpad workpadW1 (RouteParams.mk "W1" (Some "1")) =
    (Workpad.mk "W1" 0 [], [Dispatch (gotoPage 0)]) ∧
  sampleLoadWorkpad workpadW1 (RouteParams.mk "W1" (Some "3")) = (workpadW1, []).
Proof. split; reflexivity. Qed.

(** An unknown workpad sends the router home. *)
Example load_workpad_unknown :
  sampleLoadWorkpad workpadW1 (RouteParams.mk "W2" None) =
    (workpadW1, [RedirectTo "home" None]).
Proof. reflexivity. Qed.

(** C3, read with quotients, fails in binary64: [TotalCount] is not the
    sum over the events of [rawCount / samplingRate].  With [events = {T1: 3}]
    and [samplingRate = 0.9], which is positive, the loops leave
    [3 * (1 / 0.9)], which is 3.3333333333333335, where [3 / 0.9] is
    3.333333333333333. *)
Lemma total_is_not_sum_of_quotients :
  (0 <? ninetyPercent)%float = true ∧
  Binary64.TotalCount (H := sampleImports) ∅ ∅ {["T1" := traceABC]}
    ninetyPercent [("T1", 3%float)] ≠
  Binary64.sum ((λ event : string * float, (event.2 / ninetyPercent)%float) <$>
                  [("T1", 3%float)]).
Proof.
  split; [reflexivity|]. intros Heq.
  apply (f_equal (λ x, (x =? (3 / ninetyPercent))%float)) in Heq.
  vm_compute in Heq. discriminate Heq.
Qed.

(** * Further properties of the three fragments *)

(** ** Sums of numbers *)

Lemma Qsum_cons (x : Q) (l : list Q) : Qsum (x :: l) = (x + Qsum l)%Q.
Proof. reflexivity. Qed.

Lemma Qsum_nil : Qsum [] = 0%Q.
Proof. reflexivity. Qed.



(** ** [createTopNFunctions]: what the accumulator holds *)

Section TopNMore.
Context `{ProfilingImports}.
Variable executables : gmap FileID Executable.t.
Variable stackFrames : gmap StackFrameID StackFrame.t.
Variable stackTraces : gmap StackTraceID StackTrace.t.

Local Abbreviation frameStep := (frameStep executables stackFrames).
Local Abbreviation frameGroupIDAt := (frameGroupIDAt executables stackFrames).
Local Abbreviation newTopNFunction := (newTopNFunction executables stackFrames).
Local Abbreviation steppedEntry := (steppedEntry executables stackFrames).
Local Abbreviation frameGroupsOf := (frameGroupsOf executables stackFrames).
Local Abbreviation leafGroupOf := (leafGroupOf executables stackFrames).
Local Abbreviation eventStep := (eventStep executables stackFrames stackTraces).
Local Abbreviation accumulate := (accumulate executables stackFrames stackTraces).
Local Abbreviation createTopNFunctions :=
  (createTopNFunctions executables stackFrames stackTraces).
Local Abbreviation traceOf stackTraceID :=
  (default emptyStackTrace (stackTraces !! stackTraceID)).

Implicit Types (m : Accumulator) (u : gset FrameGroupID) (k : FrameGroupID).
Implicit Types (tr : StackTrace.t) (s : Q) (i : nat).
Implicit Types (events : list (StackTraceID * Q)).

(** *** Which frame groups have an entry *)

Lemma frameStep_keys tr s m u i k :
  k ∈ (frameStep tr s (m, u) i).1.*1 ↔ k ∈ m.*1 ∨ k = frameGroupIDAt tr i.
Proof.
  rewrite frameStep_unfold. cbn [fst]. rewrite map_set_keys.
  set (g := frameGroupIDAt tr i).
  assert (∀ k', k' ∈ (if map_get g m is Some _ then m else map_set g (newTopNFunction tr i) m).*1
                ↔ k' ∈ m.*1 ∨ k' = g) as Hm0.
  { intros k'. destruct (map_get g m) eqn:Hget.
    - split; [by left|]. intros [?| ->]; [done|].
      destruct (decide (g ∈ m.*1)) as [?|Hn]; [done|].
      apply map_get_None in Hn. congruence.
    - rewrite map_set_keys. apply map_get_None in Hget.
      rewrite decide_False by done. rewrite elem_of_app, list_elem_of_singleton. done. }
  rewrite decide_True by (apply Hm0; by right). apply Hm0.
Qed.

Lemma frames_keys tr s (positions : list nat) m u k :
  k ∈ (fold_left (frameStep tr s) positions (m, u)).1.*1 ↔
    k ∈ m.*1 ∨ k ∈ frameGroupIDAt tr <$> positions.
Proof.
  revert m u. induction positions as [|i positions IH]; intros m u.
  - cbn [fold_left fst]. rewrite fmap_nil, elem_of_nil. tauto.
  - cbn [fold_left]. destruct (frameStep tr s (m, u) i) as [m1 u1] eqn:E.
    rewrite IH. pose proof (frameStep_keys tr s m u i k) as Hk.
    rewrite E in Hk. cbn [fst] in Hk. rewrite Hk, fmap_cons, elem_of_cons. tauto.
Qed.

Lemma events_keys sf events (st : Q * Accumulator) k :
  k ∈ (fold_left (eventStep sf) events st).2.*1 ↔
    k ∈ st.2.*1 ∨
    ∃ event, event ∈ events ∧ k ∈ frameGroupsOf (traceOf event.1).
Proof.
  revert st. induction events as [|[stackTraceID count] events IH]; intros [total m].
  - cbn [fold_left snd]. split; [by left|]. intros [?|(? & []%elem_of_nil & _)]. done.
  - cbn [fold_left]. rewrite IH. unfold eventStep. cbn [snd].
    rewrite frames_keys. fold (frameGroupsOf (traceOf stackTraceID)). split.
    + intros [[?|?]|(event & ? & ?)]; [by left|right..].
      * exists (stackTraceID, count). split; [left|done].
      * exists event. split; [by right|done].
    + intros [?|(event & [->|?]%elem_of_cons & ?)].
      * left. by left.
      * left. by right.
      * right. by exists event.
Qed.

(** X1.  The accumulator holds an entry for a frame group exactly when the
    group occurs in the stack trace of some event; its keys are pairwise
    distinct and every entry is filed under its own [FrameGroupID]. *)
Theorem accumulator_entries samplingRate events :
  let topNFunctions := (accumulate samplingRate events).2 in
  (∀ k, is_Some (map_get k topNFunctions) ↔
        ∃ event, event ∈ events ∧ k ∈ frameGroupsOf (traceOf event.1)) ∧
  NoDup topNFunctions.*1 ∧
  Forall (λ ke, TopNFunctionAndFrameGroup.FrameGroupID ke.2 = ke.1) topNFunctions.
Proof.
  intros topNFunctions. split; [|apply accumulate_wellFormed].
  intros k. rewrite <- not_eq_None_Some, map_get_None.
  subst topNFunctions. unfold accumulate.
  pose proof (events_keys (1 / samplingRate) events (0%Q, []) k) as Hk.
  cbn [snd fmap list_fmap] in Hk. split.
  - intros Hin. apply dec_stable in Hin. apply Hk in Hin as [[]%elem_of_nil|?]. done.
  - intros Hev Hn. apply Hn, Hk. by right.
Qed.

(** *** Closed forms of the counts *)

Lemma events_inclusive_sum sf events (st : Q * Accumulator) k :
  (inclusiveOf k (fold_left (eventStep sf) events st).2 ==
   inclusiveOf k st.2 +
   Qsum ((λ event : StackTraceID * Q,
            if decide (k ∈ frameGroupsOf (traceOf event.1))
            then event.2 * sf else 0) <$> events))%Q.
Proof.
  revert st. induction events as [|[stackTraceID count] events IH]; intros [total m].
  - cbn [fold_left snd]. rewrite fmap_nil, Qsum_nil. ring.
  - cbn [fold_left]. rewrite IH, fmap_cons, Qsum_cons. cbn [fst snd].
    rewrite eventStep_inclusive. case_decide; ring.
Qed.

Lemma events_exclusive_sum sf events (st : Q * Accumulator) k :
  (exclusiveOf k (fold_left (eventStep sf) events st).2 ==
   exclusiveOf k st.2 +
   Qsum ((λ event : StackTraceID * Q,
            if decide (leafGroupOf (traceOf event.1) = Some k)
            then event.2 * sf else 0) <$> events))%Q.
Proof.
  revert st. induction events as [|[stackTraceID count] events IH]; intros [total m].
  - cbn [fold_left snd]. rewrite fmap_nil, Qsum_nil. ring.
  - cbn [fold_left]. rewrite IH, fmap_cons, Qsum_cons. cbn [fst snd].
    rewrite eventStep_exclusive. case_decide; ring.
Qed.

(** X2.  The inclusive count of a frame group is the sum of the scaled
    counts of the events whose trace contains the group, and its exclusive
    count the sum over the events whose trace ends with it. *)
Theorem counts_closed_form samplingRate events k :
  (inclusiveOf k (accumulate samplingRate events).2 ==
   Qsum ((λ event : StackTraceID * Q,
            if decide (k ∈ frameGroupsOf (traceOf event.1))
            then event.2 * (1 / samplingRate) else 0) <$> events))%Q ∧
  (exclusiveOf k (accumulate samplingRate events).2 ==
   Qsum ((λ event : StackTraceID * Q,
            if decide (leafGroupOf (traceOf event.1) = Some k)
            then event.2 * (1 / samplingRate) else 0) <$> events))%Q.
Proof.
  unfold accumulate. split.
  - rewrite events_inclusive_sum. cbn [snd]. unfold inclusiveOf at 1.
    cbn [map_get from_option]. ring.
  - rewrite events_exclusive_sum. cbn [snd]. unfold exclusiveOf at 1.
    cbn [map_get from_option]. ring.
Qed.

(** *** Events without a stack trace *)

Lemma eventStep_no_frames sf total m stackTraceID count :
  StackTrace.FrameIDs (traceOf stackTraceID) = [] →
  eventStep sf (total, m) (stackTraceID, count) = ((total + count * sf)%Q, m).
Proof. intros Hnil. unfold eventStep. by rewrite Hnil. Qed.

Lemma events_no_frames sf events (st : Q * Accumulator) :
  Forall (λ event : StackTraceID * Q,
            StackTrace.FrameIDs (traceOf event.1) = []) events →
  (fold_left (eventStep sf) events st).2 = st.2.
Proof.
  revert st. induction events as [|[stackTraceID count] events IH];
    intros [total m] Hall; [done|].
  apply Forall_cons in Hall as [Hev Hall]. cbn [fold_left].
  rewrite eventStep_no_frames by done. by rewrite IH.
Qed.

(** X4.  When the placeholder [emptyStackTrace] has no frames, an event
    whose stack trace is missing from [stackTraces] only raises the total:
    the accumulator is left as it is.  When no event has a stack trace (when
    there is no event at all, in particular) no row is returned and the
    aggregate impact estimates are computed from two zero sums. *)
Theorem missing_stack_traces samplingRate events (endIndex startIndex : Z)
    (totalSeconds : Q) :
  StackTrace.FrameIDs emptyStackTrace = [] →
  (∀ sf total m stackTraceID count,
     stackTraces !! stackTraceID = None →
     eventStep sf (total, m) (stackTraceID, count) =
       ((total + count * sf)%Q, m)) ∧
  (Forall (λ event : StackTraceID * Q, stackTraces !! event.1 = None) events →
   let result :=
     createTopNFunctions endIndex events samplingRate startIndex totalSeconds in
   (accumulate samplingRate events).2 = [] ∧
   TopNFunctions.TopN result = [] ∧
   TopNFunctions.impactEstimates result =
     if Qgtb totalSeconds 0
     then Some (calculateImpactEstimates 0 0 (TopNFunctions.TotalCount result)
                  totalSeconds)
     else None).
Proof.
  intros Hempty. split.
  - intros sf total m stackTraceID count Hnone.
    apply eventStep_no_frames. by rewrite Hnone.
  - intros Hall result.
    assert ((accumulate samplingRate events).2 = []) as Hacc.
    { unfold accumulate. rewrite events_no_frames; [done|].
      eapply Forall_impl; [exact Hall|]. intros event Hnone. cbn beta in *.
      by rewrite Hnone. }
    assert (TopNFunctions.TopN result = []) as HTopN.
    { subst result. rewrite createTopNFunctions_TopN. cbv zeta.
      rewrite Hacc.
      match goal with
      | |- imap _ ?l = [] => assert (l = []) as ->; [|done]
      end.
      apply elem_of_nil_inv. intros x Hx%js_slice_elem_of.
      apply (proj1 (rankTopN_elem_of _ _)) in Hx. by apply elem_of_nil in Hx. }
    split_and!; [done..|].
    subst result. rewrite createTopNFunctions_impactEstimates. cbv zeta.
    fold (createTopNFunctions endIndex events samplingRate startIndex totalSeconds).
    by rewrite HTopN.
Qed.


(** *** The returned rows *)


Lemma js_slice_submseteq {A} (l : list A) start end_ : js_slice l start end_ ⊆+ l.
Proof.
  unfold js_slice. etrans; [apply submseteq_take|apply submseteq_drop].
Qed.

(** The entries behind the returned rows, in the order of the rows. *)
Local Abbreviation returnedEntries endIndex events samplingRate startIndex :=
  (let ranked := rankTopN (map_values (accumulate samplingRate events).2) in
   js_slice ranked (Z.min startIndex (Z.of_nat (length ranked)))
     (Z.min endIndex (Z.of_nat (length ranked)))).

Lemma TopN_fmap {B} (f : TopNFunction.t → B) (g : TopNFunctionAndFrameGroup.t → B)
    endIndex events samplingRate startIndex totalSeconds :
  (∀ total j e, f (toTopNFunction total totalSeconds j e) = g e) →
  f <$> TopNFunctions.TopN
          (createTopNFunctions endIndex events samplingRate startIndex totalSeconds) =
  g <$> returnedEntries endIndex events samplingRate startIndex.
Proof.
  intros Hfg. rewrite createTopNFunctions_TopN. cbv zeta.
  apply list_eq. intros j.
  rewrite !list_lookup_fmap, list_lookup_imap.
  destruct (js_slice _ _ _ !! j); cbn; [|done]. by rewrite Hfg.
Qed.

Lemma returnedEntries_submseteq endIndex events samplingRate startIndex :
  returnedEntries endIndex events samplingRate startIndex ⊆+
    map_values (accumulate samplingRate events).2.
Proof.
  cbv zeta. etrans; [apply js_slice_submseteq|].
  unfold rankTopN. by rewrite reverse_Permutation, js_sort_Permutation.
Qed.










Lemma submseteq_NoDup {A} (l1 l2 : list A) : l1 ⊆+ l2 → NoDup l2 → NoDup l1.
Proof.
  intros [k Hk]%submseteq_Permutation Hnd. rewrite Hk in Hnd.
  by apply NoDup_app in Hnd as [? _].
Qed.

(** X9.  No two returned rows carry the same [Id], and there are no more
    rows than frame groups in the accumulator. *)
Theorem rows_distinct samplingRate events (endIndex startIndex : Z)
    (totalSeconds : Q) :
  let result :=
    createTopNFunctions endIndex events samplingRate startIndex totalSeconds in
  NoDup (TopNFunction.Id <$> TopNFunctions.TopN result) ∧
  (length (TopNFunctions.TopN result) ≤ length (accumulate samplingRate events).2)%nat.
Proof.
  intros result.
  assert (TopNFunction.Id <$> TopNFunctions.TopN result ⊆+
          TopNFunctionAndFrameGroup.FrameGroupID <$>
            map_values (accumulate samplingRate events).2) as Hsub.
  { subst result.
    rewrite (TopN_fmap _ TopNFunctionAndFrameGroup.FrameGroupID) by done.
    apply fmap_submseteq, returnedEntries_submseteq. }
  split.
  - eapply submseteq_NoDup; [exact Hsub|]. apply accumulate_values_NoDup.
  - apply submseteq_length in Hsub. unfold map_values in Hsub.
    by rewrite !length_fmap in Hsub.
Qed.

(** *** The metadata of an entry *)

Lemma frameStep_Frame tr s m u i k e :
  map_get k m = Some e →
  ∃ e', map_get k (frameStep tr s (m, u) i).1 = Some e' ∧
        TopNFunctionAndFrameGroup.Frame e' = TopNFunctionAndFrameGroup.Frame e.
Proof.
  intros Hget. rewrite frameStep_get. case_decide as Hk; [|by exists e].
  subst k. eexists. split; [done|]. unfold steppedEntry. rewrite Hget.
  cbn [from_option id]. by destruct (decide (_ ∈ u)), (_ =? _).
Qed.

Lemma frames_Frame tr s (positions : list nat) m u k e :
  map_get k m = Some e →
  ∃ e', map_get k (fold_left (frameStep tr s) positions (m, u)).1 = Some e' ∧
        TopNFunctionAndFrameGroup.Frame e' = TopNFunctionAndFrameGroup.Frame e.
Proof.
  revert m u e. induction positions as [|i positions IH]; intros m u e Hget.
  - by exists e.
  - cbn [fold_left]. destruct (frameStep tr s (m, u) i) as [m1 u1] eqn:E.
    destruct (frameStep_Frame tr s m u i k e Hget) as (e1 & Hget1 & Hframe1).
    rewrite E in Hget1. cbn [fst] in Hget1.
    destruct (IH m1 u1 e1 Hget1) as (e' & Hget' & Hframe').
    exists e'. split; [done|]. by rewrite Hframe'.
Qed.

Lemma events_Frame sf events (st : Q * Accumulator) k e :
  map_get k st.2 = Some e →
  ∃ e', map_get k (fold_left (eventStep sf) events st).2 = Some e' ∧
        TopNFunctionAndFrameGroup.Frame e' = TopNFunctionAndFrameGroup.Frame e.
Proof.
  revert st e. induction events as [|[stackTraceID count] events IH];
    intros [total m] e Hget.
  - by exists e.
  - cbn [fold_left]. cbn [snd] in Hget.
    destruct (frames_Frame (traceOf stackTraceID) (count * sf)
                (seq 0 (length (StackTrace.FrameIDs (traceOf stackTraceID))))
                m ∅ k e Hget) as (e1 & Hget1 & Hframe1).
    destruct (IH (eventStep sf (total, m) (stackTraceID, count)) e1 Hget1)
      as (e' & Hget' & Hframe').
    exists e'. split; [done|]. by rewrite Hframe'.
Qed.

(** X10.  The metadata of a frame group is captured when its entry is
    created and never replaced: processing further events keeps the entry
    and its [Frame]. *)
Theorem frame_metadata_kept samplingRate events events' k e :
  map_get k (accumulate samplingRate events).2 = Some e →
  ∃ e', map_get k (accumulate samplingRate (events ++ events')).2 = Some e' ∧
        TopNFunctionAndFrameGroup.Frame e' = TopNFunctionAndFrameGroup.Frame e ∧
        TopNFunctionAndFrameGroup.FrameGroupID e' = k.
Proof.
  intros Hget. unfold accumulate in *. rewrite fold_left_app.
  destruct (events_Frame (1 / samplingRate) events' _ k e Hget)
    as (e' & Hget' & Hframe).
  exists e'. split_and!; [done..|].
  rewrite <- fold_left_app in Hget'.
  destruct (accumulate_wellFormed executables stackFrames stackTraces
              samplingRate (events ++ events')) as [_ Hkeys].
  apply map_get_Some_elem_of in Hget'. rewrite Forall_forall in Hkeys.
  apply (Hkeys _ Hget').
Qed.


End TopNMore.

(** ** The sort fields *)

(** X11.  [topNFunctionSortFieldRt] accepts a value exactly when it is the
    string of one of the eight sort fields, and distinct sort fields have
    distinct strings. *)
Theorem sort_field_runtime_type (u : Json) :
  (topNFunctionSortFieldRt u = true ↔
   ∃ field, u = JString (TopNFunctionSortField.value field)) ∧
  (∀ field field',
     TopNFunctionSortField.value field = TopNFunctionSortField.value field' →
     field = field').
Proof.
  split.
  - unfold topNFunctionSortFieldRt, t_union. cbn [existsb]. split.
    + rewrite !orb_true_iff. unfold t_literal.
      destruct u as [| | |s| |]; try (intros H; decompose [or] H; discriminate).
      intros H. decompose [or] H; clear H;
        match goal with
        | H : bool_decide _ = true |- _ => apply bool_decide_eq_true in H; subst s
        | H : false = true |- _ => discriminate H
        end; eexists; reflexivity.
    + intros [field ->]. by destruct field.
  - intros field field'. destruct field, field'; (done || discriminate).
Qed.

(** ** The workpad routes *)

Section WorkpadMore.
Variable State : Type.
Variable getWorkpad : State → Workpad.t.
Variable reduce : State → Action → State.
Variable workpadService_get : string → option FetchedWorkpad.t.

Local Abbreviation loadWorkpad :=
  (loadWorkpad State getWorkpad reduce workpadService_get).
Local Abbreviation loadWorkpadPage := (loadWorkpadPage State getWorkpad reduce).

Lemma loadWorkpadPage_cases (st : State) (done_ : list Effect)
    (params : RouteParams.t) :
  (∃ page, loadWorkpadPage st done_ params =
             (st, done_ ++ [RedirectTo "loadWorkpad"
                              (Some (Workpad.id (getWorkpad st), page))])) ∨
  (∃ n, parseInt (RouteParams.page params) = Some n ∧
        n - 1 ≠ Workpad.page (getWorkpad st) ∧
        loadWorkpadPage st done_ params =
          (reduce st (gotoPage (n - 1)), done_ ++ [Dispatch (gotoPage (n - 1))])) ∨
  (∃ n, parseInt (RouteParams.page params) = Some n ∧
        n - 1 = Workpad.page (getWorkpad st) ∧
        loadWorkpadPage st done_ params = (st, done_)).
Proof.
  unfold loadWorkpadPage.
  destruct (parseInt (RouteParams.page params)) as [n|]; [|left; by eexists].
  right. case_decide as Hn.
  - left. by exists n.
  - right. exists n. split_and!; [done| |done]. by destruct (decide (n - 1 = Workpad.page (getWorkpad st))).
Qed.

Lemma loadWorkpadPage_tail (st : State) (done_ : list Effect)
    (params : RouteParams.t) :
  ∃ tail, (loadWorkpadPage st done_ params).2 = done_ ++ tail ∧
          (tail = [] ∨
           (∃ target, tail = [RedirectTo "loadWorkpad" (Some target)]) ∨
           (∃ n, tail = [Dispatch (gotoPage n)])).
Proof.
  destruct (loadWorkpadPage_cases st done_ params)
    as [[page ->]|[(n & _ & _ & ->)|(n & _ & _ & ->)]]; cbn [snd].
  - eexists. split; [done|]. right. left. by eexists.
  - eexists. split; [done|]. right. right. by eexists.
  - exists []. split; [by rewrite app_nil_r|]. by left.
Qed.

(** X12.  Whatever the state and the parameters: a redirect or a
    [gotoPage] dispatch is the last thing [loadWorkpad] does, so it never
    does both; [resetAssets] is never dispatched; [setWorkpad] is dispatched
    only after a fetch, which happens only when the requested id is not the
    current one, and right after the [setAssets] of the same fetch; and when
    that fetch finds no workpad the action redirects home, leaving the store
    as it was. *)
Theorem load_workpad_effects (st : State) (params : RouteParams.t) :
  let effects := (loadWorkpad st params).2 in
  (∀ i name target,
     effects !! i = Some (RedirectTo name target) → S i = length effects) ∧
  (∀ i pageIndex,
     effects !! i = Some (Dispatch (gotoPage pageIndex)) → S i = length effects) ∧
  (Dispatch resetAssets ∉ effects) ∧
  (∀ workpad,
     Dispatch (setWorkpad workpad) ∈ effects →
     RouteParams.id params ≠ Workpad.id (getWorkpad st) ∧
     ∃ fetched,
       workpadService_get (RouteParams.id params) = Some fetched ∧
       workpad = FetchedWorkpad.workpad fetched ∧
       take 2 effects = [Dispatch (setAssets (FetchedWorkpad.assets fetched));
                         Dispatch (setWorkpad workpad)]) ∧
  (RouteParams.id params ≠ Workpad.id (getWorkpad st) →
   workpadService_get (RouteParams.id params) = None →
   loadWorkpad st params = (st, [RedirectTo "home" None])).
Proof.
  intros effects. subst effects. unfold loadWorkpad.
  destruct (decide (RouteParams.id params ≠ Workpad.id (getWorkpad st))) as [Hid|Hid].
  - destruct (workpadService_get (RouteParams.id params)) as [fetched|] eqn:Hget.
    + match goal with
      | |- context [loadWorkpadPage ?st1 ?done1 params] =>
          destruct (loadWorkpadPage_tail st1 done1 params)
            as (tail & -> & [->|[[target ->]|[n ->]]])
      end; cbn [app]; split_and!.
      all: try (intros [|[|[|i]]]; cbn; intros; simplify_eq; done).
      all: try (rewrite !elem_of_cons, elem_of_nil; intros Hin;
                decompose [or] Hin; simplify_eq; done).
      all: try (intros ? ?; done).
      all: intros workpad; rewrite !elem_of_cons, elem_of_nil; intros Hin;
        split; [done|]; exists fetched; split; [done|];
        decompose [or] Hin; simplify_eq; done.
    + cbn [snd]. split_and!.
      all: try (intros [|i]; cbn; intros; simplify_eq; done).
      all: try (rewrite !elem_of_cons, elem_of_nil; intros Hin;
                decompose [or] Hin; simplify_eq; done).
      * intros workpad. rewrite !elem_of_cons, elem_of_nil. intros Hin.
        decompose [or] Hin; simplify_eq.
      * done.
  - destruct (loadWorkpadPage_tail st [] params)
      as (tail & -> & [->|[[target ->]|[n ->]]]); cbn [app]; split_and!.
    all: try (intros [|[|i]]; cbn; intros; simplify_eq; done).
    all: try (rewrite ?elem_of_cons, elem_of_nil; intros Hin;
              decompose [or] Hin; simplify_eq; done).
    all: try (intros workpad; rewrite ?elem_of_cons, elem_of_nil; intros Hin;
              decompose [or] Hin; simplify_eq; done).
    all: try (intros ? ?; done).
Qed.

Lemma loadWorkpad_current_page (st : State) (params : RouteParams.t) n :
  RouteParams.id params = Workpad.id (getWorkpad st) →
  parseInt (RouteParams.page params) = Some n →
  n - 1 = Workpad.page (getWorkpad st) →
  loadWorkpad st params = (st, []).
Proof.
  intros Hid Hparse Hpage. unfold loadWorkpad, loadWorkpadPage.
  rewrite decide_False by (by intros ?). rewrite Hparse.
  by rewrite decide_False by (by intros ?).
Qed.

(** X13.  On a store where [gotoPage] changes the page of the current
    workpad and nothing else of it, and where [setWorkpad] makes the
    dispatched workpad the current one, with a service that answers with the
    workpad of the requested id: a run of [loadWorkpad] that does not
    redirect leaves a state in which running it again with the same
    parameters does nothing at all. *)
Theorem load_workpad_settles (st : State) (params : RouteParams.t) :
  (∀ st' pageIndex,
     Workpad.id (getWorkpad (reduce st' (gotoPage pageIndex))) =
       Workpad.id (getWorkpad st') ∧
     Workpad.page (getWorkpad (reduce st' (gotoPage pageIndex))) = pageIndex) →
  (∀ st' assets workpad,
     getWorkpad (reduce (reduce st' (setAssets assets)) (setWorkpad workpad)) =
       workpad) →
  (∀ id fetched,
     workpadService_get id = Some fetched →
     Workpad.id (FetchedWorkpad.workpad fetched) = id) →
  (∀ name target, RedirectTo name target ∉ (loadWorkpad st params).2) →
  loadWorkpad (loadWorkpad st params).1 params = ((loadWorkpad st params).1, []).
Proof.
  intros Hgoto Hset Hfetch Hno.
  assert (∀ st0 done_,
            RouteParams.id params = Workpad.id (getWorkpad st0) →
            (∀ name target,
               RedirectTo name target ∉ (loadWorkpadPage st0 done_ params).2) →
            loadWorkpad (loadWorkpadPage st0 done_ params).1 params =
              ((loadWorkpadPage st0 done_ params).1, [])) as Hpage.
  { intros st0 done_ Hid Hno0.
    destruct (loadWorkpadPage_cases st0 done_ params)
      as [[page Heq]|[(n & Hparse & Hne & Heq)|(n & Hparse & Hpg & Heq)]];
      rewrite Heq in *; cbn [fst snd] in *.
    - exfalso. eapply Hno0, elem_of_app. right. left.
    - destruct (Hgoto st0 (n - 1)) as [Hid' Hpage'].
      apply (loadWorkpad_current_page _ _ n); [congruence|done|congruence].
    - by apply (loadWorkpad_current_page _ _ n). }
  assert (loadWorkpad st params = (st, [RedirectTo "home" None]) ∨
          ∃ st0 done_,
            RouteParams.id params = Workpad.id (getWorkpad st0) ∧
            loadWorkpad st params = loadWorkpadPage st0 done_ params) as Hcases.
  { unfold loadWorkpad.
    destruct (decide (RouteParams.id params ≠ Workpad.id (getWorkpad st)))
      as [Hid|Hid].
    - destruct (workpadService_get (RouteParams.id params)) as [fetched|] eqn:Hget;
        [|by left].
      right. eexists _, _. split; [|done].
      rewrite Hset. symmetry. by apply Hfetch.
    - right. exists st, []. split; [|done].
      by destruct (decide (RouteParams.id params = Workpad.id (getWorkpad st))). }
  destruct Hcases as [Heq|(st0 & done_ & Hid & Heq)]; rewrite Heq in *.
  - exfalso. eapply Hno. left.
  - by apply Hpage.
Qed.

(** X19.  On a store where [setWorkpad] makes the dispatched workpad the
    current one: when the requested id is not the current one and the fetch
    finds a workpad, the action dispatches [setAssets] and [setWorkpad] and
    then treats the page parameter against the fetched workpad: without a
    page that parses it redirects to [loadWorkpad] with the id of the fetched
    workpad and its page index plus one, with one it dispatches
    [gotoPage (page - 1)] exactly when that differs from the page index of
    the fetched workpad. *)
Theorem load_workpad_fetched (st : State) (params : RouteParams.t)
    (fetched : FetchedWorkpad.t) :
  (∀ st' assets workpad,
     getWorkpad (reduce (reduce st' (setAssets assets)) (setWorkpad workpad)) =
       workpad) →
  RouteParams.id params ≠ Workpad.id (getWorkpad st) →
  workpadService_get (RouteParams.id params) = Some fetched →
  let assets := FetchedWorkpad.assets fetched in
  let workpad := FetchedWorkpad.workpad fetched in
  let st1 := reduce (reduce st (setAssets assets)) (setWorkpad workpad) in
  (parseInt (RouteParams.page params) = None →
   loadWorkpad st params =
     (st1, [Dispatch (setAssets assets); Dispatch (setWorkpad workpad);
            RedirectTo "loadWorkpad"
              (Some (Workpad.id workpad, Workpad.page workpad + 1))])) ∧
  (∀ n, parseInt (RouteParams.page params) = Some n →
        n - 1 ≠ Workpad.page workpad →
        loadWorkpad st params =
          (reduce st1 (gotoPage (n - 1)),
           [Dispatch (setAssets assets); Dispatch (setWorkpad workpad);
            Dispatch (gotoPage (n - 1))])) ∧
  (∀ n, parseInt (RouteParams.page params) = Some n →
        n - 1 = Workpad.page workpad →
        loadWorkpad st params =
          (st1, [Dispatch (setAssets assets); Dispatch (setWorkpad workpad)])).
Proof.
  intros Hset Hid Hget assets workpad st1.
  unfold loadWorkpad. rewrite decide_True by done. rewrite Hget.
  fold assets workpad st1. unfold loadWorkpadPage. subst st1. rewrite Hset.
  split_and!.
  - by intros ->.
  - intros n -> Hne. by rewrite decide_True.
  - intros n -> Heq. by rewrite decide_False by (by intros ?).
Qed.

Section CreateThenLoad.
Variable newWorkpad : Workpad.t.
Variable Rejection : Type.
Variable workpadService_create : Workpad.t → option Rejection.

Local Abbreviation createWorkpad :=
  (createWorkpad State reduce newWorkpad Rejection workpadService_create).

(** X14.  On a store where the workpad dispatched by [setWorkpad] is the
    current one after [resetAssets] as well: when [createWorkpad] completes,
    its last effect is the redirect to [loadWorkpad] with the id of the new
    workpad and page 1, and [loadWorkpad] run on the state it leaves, with
    that id and the page segment "1", neither fetches nor redirects: it
    dispatches [gotoPage 0] when the new workpad is not on its first page
    and does nothing otherwise. *)
Theorem create_then_load (st st' : State) (effects : list Effect) :
  (∀ st0 workpad,
     getWorkpad (reduce (reduce st0 (setWorkpad workpad)) resetAssets) = workpad) →
  createWorkpad st = inr (st', effects) →
  last effects = Some (RedirectTo "loadWorkpad" (Some (Workpad.id newWorkpad, 1))) ∧
  loadWorkpad st' (RouteParams.mk (Workpad.id newWorkpad) (Some "1")) =
    if decide (Workpad.page newWorkpad = 0) then (st', [])
    else (reduce st' (gotoPage 0), [Dispatch (gotoPage 0)]).
Proof.
  intros Hstore. unfold createWorkpad.
  destruct (workpadService_create newWorkpad); [done|].
  intros [= <- <-]. split; [done|].
  unfold loadWorkpad, loadWorkpadPage. rewrite Hstore.
  cbn [RouteParams.id RouteParams.page].
  rewrite decide_False by (by intros ?).
  change (parseInt (Some "1")) with (Some 1). cbn [app].
  destruct (decide (Workpad.page newWorkpad = 0)) as [Hp|Hp].
  - rewrite decide_False; [done|]. intros Hne. apply Hne. by rewrite Hp.
  - rewrite decide_True; [done|]. intros Heq. apply Hp. by rewrite <- Heq.
Qed.
End CreateThenLoad.
End WorkpadMore.

(** ** The field route *)

Section WatcherMore.
Variable Thrown : Type.
Variable statusCode : Thrown → Z.
Variable message : Thrown → string.
Variable isEsError : Thrown → bool.
Variable Fields : Type.
Variable fromUpstreamJson : Json → Fields.
Variable downstreamJson : Fields → Json.

Local Abbreviation handlerWith callAsCurrentUser :=
  (listFieldsHandler Thrown statusCode message isEsError
     Fields fromUpstreamJson downstreamJson callAsCurrentUser).

(** X15.  The outcome of the handler is decided by one call of the cluster
    client: [fieldCaps] on the requested indexes with all fields, unavailable
    and missing indices allowed and 404 ignored.  Two clients that agree on
    that call lead to the same outcome.  The handler rethrows only an error
    of that call that [isEsError] does not recognise, and answers
    [response.ok] only when that call resolved. *)
Theorem list_fields_outcome
    (callAsCurrentUser callAsCurrentUser' :
       string → FieldCapsParams.t → Thrown + list (string * Json))
    (indexes : list string) :
  let params :=
    {| FieldCapsParams.index := indexes;
       FieldCapsParams.fields := ["*"];
       FieldCapsParams.ignoreUnavailable := true;
       FieldCapsParams.allowNoIndices := true;
       FieldCapsParams.ignore := 404 |} in
  (callAsCurrentUser "fieldCaps" params = callAsCurrentUser' "fieldCaps" params →
   handlerWith callAsCurrentUser indexes = handlerWith callAsCurrentUser' indexes) ∧
  (∀ e, handlerWith callAsCurrentUser indexes = Rethrown e →
        callAsCurrentUser "fieldCaps" params = inl e ∧ isEsError e = false) ∧
  (∀ body, handlerWith callAsCurrentUser indexes = Responded (ResponseOk body) →
           ∃ fieldsResponse,
             callAsCurrentUser "fieldCaps" params = inr fieldsResponse) ∧
  (∀ status body,
     handlerWith callAsCurrentUser indexes =
       Responded (ResponseCustomError status body) →
     ∃ e, callAsCurrentUser "fieldCaps" params = inl e ∧ isEsError e = true ∧
          status = statusCode e ∧
          body = JObject [("message", JString (message e))]).
Proof.
  intros params. unfold listFieldsHandler, fetchFields. fold params. split_and!.
  - by intros ->.
  - intros e. destruct (callAsCurrentUser "fieldCaps" params) as [e'|]; [|done].
    destruct (isEsError e') eqn:Hes; [done|]. by intros [= ->].
  - intros body. destruct (callAsCurrentUser "fieldCaps" params) as [e'|resp].
    + by destruct (isEsError e').
    + by exists resp.
  - intros status body.
    destruct (callAsCurrentUser "fieldCaps" params) as [e'|resp]; [|done].
    destruct (isEsError e') eqn:Hes; [|done]. intros [= <- <-]. by exists e'.
Qed.
End WatcherMore.

(** ** The assistant panel *)

Section AssistantMore.
Variable WELCOME_CONVERSATION_TITLE : string.

Implicit Types (conversations : list (string * Conversation.t)).
Implicit Types (connectors : option (list string)).

Lemma missingConnectorEffect_false connectors (current : Conversation.t) :
  missingConnectorEffect connectors current = false ↔
  ∃ loaded connectorId,
    connectors = Some loaded ∧ connectorId ∈ loaded ∧
    Conversation.connectorId current = Some connectorId.
Proof.
  unfold missingConnectorEffect. rewrite negb_false_iff.
  destruct connectors as [loaded|]; cbn.
  - rewrite existsb_exists. split.
    + intros (connectorId & Hin%list_elem_of_In & Heq%bool_decide_eq_true).
      by exists loaded, connectorId.
    + intros (loaded' & connectorId & [= <-] & Hin & Heq).
      exists connectorId. split; [by apply list_elem_of_In|].
      by apply bool_decide_eq_true.
  - split; [done|]. by intros (? & ? & ? & _).
Qed.

(** X16.  In a render whose [showMissingConnectorCallout] is the value the
    effect computes from the same connectors and conversation, sending is
    enabled exactly when the assistant is enabled and the connector of the
    current conversation is one of the loaded connectors.  Whatever that
    state is, the prompt text area is handed the empty string, not what the
    user typed, when the assistant is not enabled and when the panel is in
    welcome setup. *)
Theorem sending_enabled conversations connectors (isAssistantEnabled : bool)
    (current : Conversation.t) (userPrompt : option string) :
  let showMissingConnectorCallout := missingConnectorEffect connectors current in
  (isSendingDisabled conversations connectors isAssistantEnabled
     showMissingConnectorCallout = false ↔
   isAssistantEnabled = true ∧
   ∃ loaded connectorId,
     connectors = Some loaded ∧ connectorId ∈ loaded ∧
     Conversation.connectorId current = Some connectorId) ∧
  (∀ flag,
     isAssistantEnabled = false →
     promptValue conversations connectors isAssistantEnabled flag userPrompt = "") ∧
  (∀ flag,
     isWelcomeSetup conversations connectors = true →
     promptValue conversations connectors isAssistantEnabled flag userPrompt = "").
Proof.
  intros flag. subst flag. split_and!.
  - unfold isSendingDisabled, isDisabled.
    rewrite !orb_false_iff, negb_false_iff, missingConnectorEffect_false.
    split.
    + intros [[_ ?] ?]. done.
    + intros [-> (loaded & connectorId & -> & Hin & Hc)].
      split_and!; [|done|by exists loaded, connectorId].
      unfold isWelcomeSetup. destruct (existsb _ conversations); [done|].
      apply bool_decide_eq_false. cbn. by destruct Hin.
  - intros flag ->. unfold promptValue, isSendingDisabled, isDisabled.
    by rewrite orb_true_r.
  - intros flag Hwelcome. unfold promptValue, isSendingDisabled, isDisabled.
    by rewrite Hwelcome.
Qed.

(** X17.  The effect that remembers the last conversation never stores the
    id of a conversation excluded from that storage: it stores the welcome
    conversation when the connectors are fetched and there is none, the id
    of the current conversation when that is not excluded, and nothing
    otherwise. *)
Theorem last_conversation_stored (areConnectorsFetched : bool) connectors
    (current : Conversation.t) (stored : string) :
  lastConversationEffect WELCOME_CONVERSATION_TITLE areConnectorsFetched
    connectors current = Some stored →
  (stored = WELCOME_CONVERSATION_TITLE ∧ areConnectorsFetched = true ∧
   (connectors = None ∨ connectors = Some [])) ∨
  (stored = Conversation.id current ∧
   Conversation.excludeFromLastConversationStorage current = false ∧
   (areConnectorsFetched = false ∨
    ∃ connectorId loaded, connectors = Some (connectorId :: loaded))).
Proof.
  unfold lastConversationEffect.
  destruct areConnectorsFetched, connectors as [[|connectorId loaded]|]; cbn;
    try (intros [= <-]; left; split_and!; [done..|]; (by left) || (by right)).
  all: destruct (Conversation.excludeFromLastConversationStorage current);
    cbn; [done|]; intros [= <-]; right; split_and!; [done..|].
  all: try (by left).
  right. by eexists _, _.
Qed.
End AssistantMore.

(** ** The further properties on the sample inputs *)

Lemma missing_stack_traces_witness :
  (accumulate (H := sampleImports) ∅ ∅ fiveTraces 1 [("T9", 7%Q)]).2 = [] ∧
  TopNFunctions.TopN
    (createTopNFunctions (H := sampleImports) ∅ ∅ fiveTraces
       5 [("T9", 7%Q)] 1 0 0) = [].
Proof.
  destruct (missing_stack_traces (H := sampleImports) ∅ ∅ fiveTraces 1
              [("T9", 7%Q)] 5 0 0%Q) as [_ Hnone].
  - reflexivity.
  - destruct Hnone as (Hacc & HTopN & _).
    + repeat constructor.
    + by split.
Defined.



Lemma frame_metadata_kept_witness :
  ∃ e', map_get "A"
          (accumulate (H := sampleImports) ∅ ∅ fiveTraces 1
             ([("T1", 3%Q)] ++ [("T2", 1%Q)])).2 = Some e' ∧
        TopNFunctionAndFrameGroup.FrameGroupID e' = "A".
Proof.
  destruct (map_get "A"
              (accumulate (H := sampleImports) ∅ ∅ fiveTraces 1 [("T1", 3%Q)]).2)
    as [e|] eqn:Hget; [|vm_compute in Hget; discriminate Hget].
  destruct (frame_metadata_kept (H := sampleImports) ∅ ∅ fiveTraces 1
              [("T1", 3%Q)] [("T2", 1%Q)] "A" e Hget) as (e' & Hget' & _ & Hid).
  by exists e'.
Defined.

Lemma load_workpad_settles_witness :
  loadWorkpad Workpad.t (λ st, st) sampleReduce sampleWorkpadService
    (Workpad.mk "W2" 4 []) (RouteParams.mk "W2" (Some "5")) =
  (Workpad.mk "W2" 4 [], []).
Proof.
  pose proof (load_workpad_settles Workpad.t (λ st, st) sampleReduce
                sampleWorkpadService workpadW1 (RouteParams.mk "W2" (Some "5")))
    as Hsettles.
  apply Hsettles.
  - intros st' pageIndex. split; reflexivity.
  - reflexivity.
  - intros id fetched. unfold sampleWorkpadService.
    case_decide as Hid; [|discriminate]. intros [= <-]. by rewrite Hid.
  - intros name target Hin. vm_compute in Hin.
    repeat (apply elem_of_cons in Hin as [Hin|Hin]; [discriminate Hin|]).
    by apply elem_of_nil in Hin.
Defined.

Lemma load_workpad_fetched_witness :
  loadWorkpad Workpad.t (λ st, st) sampleReduce sampleWorkpadService
    workpadW1 (RouteParams.mk "W2" None) =
  (Workpad.mk "W2" 0 [],
   [Dispatch (setAssets (JArray [])); Dispatch (setWorkpad (Workpad.mk "W2" 0 []));
    RedirectTo "loadWorkpad" (Some ("W2", 1))]).
Proof.
  destruct (load_workpad_fetched Workpad.t (λ st, st) sampleReduce
              sampleWorkpadService workpadW1 (RouteParams.mk "W2" None)
              (FetchedWorkpad.mk (JArray []) (Workpad.mk "W2" 0 [])))
    as [Hredirect _].
  - reflexivity.
  - discriminate.
  - reflexivity.
  - apply Hredirect. reflexivity.
Defined.

Lemma create_then_load_witness :
  loadWorkpad Workpad.t (λ st, st) sampleReduce sampleWorkpadService
    (Workpad.mk "W3" 0 []) (RouteParams.mk "W3" (Some "1")) =
  (Workpad.mk "W3" 0 [], []).
Proof.
  destruct (create_then_load Workpad.t (λ st, st) sampleReduce sampleWorkpadService
              (Workpad.mk "W3" 0 []) unit (λ _, None)
              workpadW1 (Workpad.mk "W3" 0 [])
              [Dispatch (setWorkpad (Workpad.mk "W3" 0 [])); Dispatch resetAssets;
               RedirectTo "loadWorkpad" (Some ("W3", 1))])
    as [_ Hload].
  - reflexivity.
  - reflexivity.
  - exact Hload.
Defined.

Lemma last_conversation_stored_witness :
  ("Welcome" = "Welcome" ∧ true = true ∧
   ((Some [] : option (list string)) = None ∨
    (Some [] : option (list string)) = Some [])) ∨
  ("Welcome" = Conversation.id sampleConversation ∧
   Conversation.excludeFromLastConversationStorage sampleConversation = false ∧
   (true = false ∨
    ∃ connectorId loaded,
      (Some [] : option (list string)) = Some (connectorId :: loaded))).
Proof.
  apply (last_conversation_stored "Welcome" true (Some []) sampleConversation
           "Welcome").
  reflexivity.
Defined.

